(** * couchfs: a FUSE driver that keeps a directory tree in CouchDB

    A shallow embedding of [couchfs.py] and the properties of its
    operations.  The driver is one Python class, [CouchFS]; every method
    reads and writes a CouchDB database through the couchdb-python client
    and keeps a table of open paths in memory.

    Layout of the development:
    - [Py]: the pieces of the Python runtime the driver relies on (slices,
      [os.path.split], [errno] and [stat] constants, exceptions);
    - [couchdb]: the contract of the document store (documents, revisions,
      attachments, the [by_path] view);
    - the driver itself, one definition per method of the source;
    - the vocabulary of the properties, then the properties, one section
      per operation. *)

From Stdlib Require Import ZArith Ascii String List Lia.
From stdpp Require Import base tactics option list gmap strings fin_maps.

Local Open Scope string_scope.
Local Open Scope Z_scope.
Local Open Scope list_scope.

(** ** The Python runtime *)

Module Py.

(** A Python 2 [str] used as a byte buffer. *)
Abbreviation bytes := (list Byte.byte).

(** Exceptions the driver can meet. *)
Inductive exn : Type :=
| socket_timeout      (* socket.timeout *)
| KeyError
| TypeError
| AttributeError
| ResourceNotFound    (* couchdb.http.ResourceNotFound *)
| ResourceConflict.   (* couchdb.http.ResourceConflict *)

#[global] Instance exn_eq_dec : EqDecision exn.
Proof. solve_decision. Defined.

(** The result of evaluating a call: a value or a raised exception. *)
Inductive outcome (A : Type) : Type :=
| Ret (a : A)
| Raise (e : exn).
Arguments Ret {A} a.
Arguments Raise {A} e.

(** [errno] and [stat] constants (Linux values). *)
Definition ENOENT : Z := 2.
Definition EEXIST : Z := 17.
Definition EINVAL : Z := 22.
Definition ENOTEMPTY : Z := 39.

Definition S_IFDIR : Z := 16384.   (* 0040000 *)
Definition S_IFBLK : Z := 24576.   (* 0060000 *)
Definition S_IFREG : Z := 32768.   (* 0100000 *)
Definition S_IFLNK : Z := 40960.   (* 0120000 *)
Definition S_IFSOCK : Z := 49152.  (* 0140000 *)
Definition S_IFMT : Z := 61440.    (* 0170000 *)

(** [stat.S_ISDIR]: the file-type bits denote a directory. *)
Definition S_ISDIR (mode : Z) : bool := Z.land mode S_IFMT =? S_IFDIR.

(** A slice bound [i] of a sequence of length [len]: negative bounds
    count from the end, and every bound is clamped into [0, len]. *)
Definition slice_bound (len i : Z) : Z :=
  if i <? 0 then Z.max 0 (i + len) else Z.min i len.

(** [s[lo:hi]]; [None] is an omitted bound. *)
Definition slice {A} (s : list A) (lo hi : option Z) : list A :=
  let len := Z.of_nat (length s) in
  let l := match lo with None => 0 | Some i => slice_bound len i end in
  let h := match hi with None => len | Some i => slice_bound len i end in
  take (Z.to_nat (h - l)) (drop (Z.to_nat l) s).

(** [p.rfind('/')], scanning from position [pos] with [last] the last
    index found so far. *)
Fixpoint rfind_slash (p : list ascii) (pos last : Z) : Z :=
  match p with
  | [] => last
  | c :: p' =>
      rfind_slash p' (pos + 1) (if Ascii.eqb c "/" then pos else last)
  end.

(** [s.lstrip('/')] and [s.rstrip('/')]. *)
Fixpoint lstrip_slash (s : list ascii) : list ascii :=
  match s with
  | c :: s' => if Ascii.eqb c "/" then lstrip_slash s' else s
  | [] => []
  end.

Definition rstrip_slash (s : list ascii) : list ascii :=
  reverse (lstrip_slash (reverse s)).

(** [posixpath.split]:
<<
    i = p.rfind('/') + 1
    head, tail = p[:i], p[i:]
    if head and head != '/'*len(head):
        head = head.rstrip('/')
    return head, tail
>> *)
Definition os_path_split (p : string) : string * string :=
  let l := list_ascii_of_string p in
  let i := rfind_slash l 0 (-1) + 1 in
  let head := slice l None (Some i) in
  let tail := slice l (Some i) None in
  let head :=
    if bool_decide (head ≠ []) && negb (forallb (λ c, Ascii.eqb c "/") head)
    then rstrip_slash head else head in
  (string_of_list_ascii head, string_of_list_ascii tail).

End Py.
Import Py.

(** ** Data model *)

(** The [inode] object of an inode document.  [ctime] and [mtime] are
    readings of the clock; the source stores them as ISO-8601 text. *)
Record inode_fields : Type := mk_inode_fields {
  i_path : string;
  i_mode : Z;
  i_nlink : Z;
  i_ctime : nat;
  i_mtime : nat
}.

(** A directory-entry map: child name to child document id. *)
Abbreviation dentry_map := (gmap string string).

(** ** The document store

    The driver talks to CouchDB through couchdb-python.  Neither is part of
    the repository; this module states the contract the driver relies on.

    - every document has an id and a revision token; a write names the
      revision it is based on and is refused with [ResourceConflict] when
      that is not the current one;
    - a document carries up to three attachments, [dentry.json], [dblock]
      and [symlink], each holding one kind of content;
    - the [by_path] view lists the documents that have an [inode] object
      under the key [inode.path];
    - [history] is the sequence of writes the store has applied, oldest
      first; a new revision token is the position of its write in it.

    Transport failures are not part of the contract: a request either is
    applied or is refused for one of the reasons above. *)

Module couchdb.

Inductive attachment : Type :=
| Att_dentry (d : dentry_map)   (* "dentry.json", application/json *)
| Att_dblock (b : bytes)        (* "dblock", application/octet-stream *)
| Att_symlink (s : string).     (* "symlink", application/octet-stream *)

Definition filename (a : attachment) : string :=
  match a with
  | Att_dentry _ => "dentry.json"
  | Att_dblock _ => "dblock"
  | Att_symlink _ => "symlink"
  end.

(** A document as the store holds it.  [sd_inode] is [None] for a
    document without an [inode] object (the design document). *)
Record stored : Type := mk_stored {
  sd_rev : nat;
  sd_inode : option inode_fields;
  sd_dentry : option dentry_map;
  sd_dblock : option bytes;
  sd_symlink : option string
}.

Inductive request : Type :=
| Saved (id : string)
| Deleted (id : string)
| Attached (id : string) (name : string).

Record database : Type := mk_database {
  docs : gmap string stored;
  history : list request
}.

Definition empty : database := mk_database ∅ [].

Definition next_rev (db : database) : nat := S (length (history db)).

Definition apply (r : request) (m : gmap string stored) (db : database)
  : database :=
  mk_database m (history db ++ [r])%list.

(** A document as a Python dict handed to [save]: the keys [_id], [_rev]
    and [inode] may each be absent. *)
Record body : Type := mk_body {
  b_id : option string;
  b_rev : option nat;
  b_inode : option inode_fields
}.

(** [db.save(doc)]: POST when the dict has no [_id] (the store assigns a
    fresh one), PUT otherwise.  Returns the id and the new revision.
    Attachments of an updated document are kept. *)
Definition db_save (doc : body) (db : database)
  : outcome (string * nat) * database :=
  let rev := next_rev db in
  match b_id doc with
  | None =>
      let id := fresh (dom (docs db)) in
      (Ret (id, rev),
       apply (Saved id)
         (<[id := mk_stored rev (b_inode doc) None None None]> (docs db)) db)
  | Some id =>
      match docs db !! id, b_rev doc with
      | None, None =>
          (Ret (id, rev),
           apply (Saved id)
             (<[id := mk_stored rev (b_inode doc) None None None]> (docs db))
             db)
      | Some sd, Some r =>
          if decide (sd_rev sd = r) then
            (Ret (id, rev),
             apply (Saved id)
               (<[id := mk_stored rev (b_inode doc) (sd_dentry sd)
                          (sd_dblock sd) (sd_symlink sd)]> (docs db)) db)
          else (Raise ResourceConflict, db)
      | _, _ => (Raise ResourceConflict, db)
      end
  end.

(** [db[id]]. *)
Definition db_getitem (id : string) (db : database) : outcome stored :=
  match docs db !! id with
  | Some sd => Ret sd
  | None => Raise ResourceNotFound
  end.

(** [db.delete(doc)], with [doc['_id']] and [doc['_rev']]. *)
Definition db_delete (id : string) (rev : nat) (db : database)
  : outcome unit * database :=
  match docs db !! id with
  | None => (Raise ResourceNotFound, db)
  | Some sd =>
      if decide (sd_rev sd = rev)
      then (Ret tt, apply (Deleted id) (delete id (docs db)) db)
      else (Raise ResourceConflict, db)
  end.

(** [db.get_attachment(doc, name)] for each of the three names; [None]
    (the default) when the document or the attachment is missing. *)
Definition db_get_dentry_json (id : string) (db : database)
  : option dentry_map := docs db !! id ≫= sd_dentry.
Definition db_get_dblock (id : string) (db : database)
  : option bytes := docs db !! id ≫= sd_dblock.
Definition db_get_symlink (id : string) (db : database)
  : option string := docs db !! id ≫= sd_symlink.

Definition attach (a : attachment) (rev : nat) (sd : stored) : stored :=
  match a with
  | Att_dentry d =>
      mk_stored rev (sd_inode sd) (Some d) (sd_dblock sd) (sd_symlink sd)
  | Att_dblock b =>
      mk_stored rev (sd_inode sd) (sd_dentry sd) (Some b) (sd_symlink sd)
  | Att_symlink s =>
      mk_stored rev (sd_inode sd) (sd_dentry sd) (sd_dblock sd) (Some s)
  end.

(** [db.put_attachment(doc, content, name, type)], with [doc['_id']] and
    [doc['_rev']].  Returns the new revision, which the client assigns
    to [doc['_rev']]. *)
Definition db_put_attachment (id : string) (rev : nat) (a : attachment)
    (db : database) : outcome nat * database :=
  match docs db !! id with
  | None => (Raise ResourceConflict, db)
  | Some sd =>
      if decide (sd_rev sd = rev)
      then
        let rev' := next_rev db in
        (Ret rev',
         apply (Attached id (filename a))
           (<[id := attach a rev' sd]> (docs db)) db)
      else (Raise ResourceConflict, db)
  end.

(** The map function of the view:
    [if (doc.inode) emit(doc.inode.path, doc)]. *)
Definition emits (key : string) (kv : string * stored) : Prop :=
  i_path <$> sd_inode kv.2 = Some key.

#[global] Instance emits_dec key kv : Decision (emits key kv).
Proof. unfold emits. apply _. Defined.

(** [db.view('_design/inode/_view/by_path', include_docs=True)[key]]:
    the rows for [key], each an id with the stored document. *)
Definition db_view_by_path (key : string) (db : database)
  : list (string * stored) :=
  map_to_list (filter (emits key) (docs db)).

End couchdb.
Import couchdb.

(** ** The driver state *)

(** A [couchdb.Document]: the dict the client builds from a stored
    document, with its [_id], [_rev] and [inode] keys.

    Python dicts are shared by reference.  The dict that [open] stores in
    [self._inodes[p]] is the very object [_get_inode(p)] hands out later,
    and the client's [put_attachment] assigns [doc['_rev']] on the object
    it is given.  [d_held = Some p] marks a value as standing for the
    object stored under key [p], so that this assignment reaches the
    table; [None] marks an object only the running call refers to. *)
Record Document : Type := mk_Document {
  d_id : string;
  d_rev : nat;
  d_inode : inode_fields;
  d_held : option string
}.

Definition with_rev (rev : nat) (d : Document) : Document :=
  mk_Document (d_id d) rev (d_inode d) (d_held d).

Definition with_held (p : string) (d : Document) : Document :=
  mk_Document (d_id d) (d_rev d) (d_inode d) (Some p).

(** [Row.doc] of a view row. *)
Definition row_doc (kv : string * stored) : option Document :=
  (λ i, mk_Document kv.1 (sd_rev kv.2) i None) <$> sd_inode kv.2.

(** Log records: the level, the format string and its arguments. *)
Inductive level : Type := DEBUG | INFO | ERROR.

Inductive logarg : Type :=
| Str (s : string)
| Int (z : Z)
| Buf (b : bytes)
| Doc (d : option Document)
| Traceback (e : exn).    (* traceback.format_exc() *)

Record log_record : Type := LogRecord {
  levelname : level;
  msg : string;
  args : list logarg
}.

(** The state a call runs in: the two attributes of the [CouchFS] object
    ([_couchdb], and [_inodes], the table of open paths with the document
    and the open count of each), the clock read by [_now] and the records
    written to the module's logger. *)
Record CouchFS : Type := mk_CouchFS {
  _couchdb : database;
  _inodes : gmap string (Document * Z);
  clock : nat;
  logger : list log_record
}.

Definition set_couchdb (db : database) (st : CouchFS) : CouchFS :=
  mk_CouchFS db (_inodes st) (clock st) (logger st).

Definition set_inodes (t : gmap string (Document * Z)) (st : CouchFS)
  : CouchFS :=
  mk_CouchFS (_couchdb st) t (clock st) (logger st).

(** A world in which records can be logged. *)
Class Logging (W : Type) : Type := emit : log_record → W → W.

#[global] Instance CouchFS_logging : Logging CouchFS := λ r st,
  mk_CouchFS (_couchdb st) (_inodes st) (clock st) (logger st ++ [r])%list.

(** What a driver method hands back to the FUSE binding: [None], an
    integer (a byte count or a negated errno), a buffer, or a generator.
    A generator is the suspended body of the method; running it to
    exhaustion gives the names it yields, or the exception it raises. *)
Inductive value : Type :=
| VNone
| VInt (z : Z)
| VBuf (b : bytes)
| VGenerator (g : CouchFS → outcome (list string) * CouchFS).

(** ** Calls: state passing with exceptions *)

Definition call (A : Type) : Type := CouchFS → outcome A * CouchFS.

#[global] Instance call_ret : MRet call := λ A a st, (Ret a, st).

#[global] Instance call_bind : MBind call := λ A B k c st,
  match c st with
  | (Ret a, st') => k a st'
  | (Raise e, st') => (Raise e, st')
  end.

Definition raise {A} (e : exn) : call A := λ st, (Raise e, st).

(** [try: c except e: h]. *)
Definition try_except {A} (c : call A) (e : exn) (h : call A) : call A :=
  λ st,
  match c st with
  | (Raise e', st') => if decide (e' = e) then h st' else (Raise e', st')
  | r => r
  end.

Definition logger_debug (fmt : string) (a : list logarg) : call unit :=
  λ st, (Ret tt, emit (LogRecord DEBUG fmt a) st).

Definition logger_info (fmt : string) (a : list logarg) : call unit :=
  λ st, (Ret tt, emit (LogRecord INFO fmt a) st).

(** ** The decorator [exc_handle]
<<
    try:
        return f(...)
    except socket.timeout:
        logger.error('connection timeout: retry %s', f.__name__)
        return f(...)
    except:
        logger.error('%s failed: %s', f.__name__, traceback.format_exc())
        return -errno.EINVAL
>>
    [f] is the decorated function applied to its arguments and [name] its
    [__name__].  The decorator does not depend on the driver, so it is
    stated over any world with a logger. *)
Definition exc_handle {W} `{Logging W} (name : string)
    (f : W → outcome value * W) : W → outcome value * W :=
  λ w,
  match f w with
  | (Ret v, w1) => (Ret v, w1)
  | (Raise socket_timeout, w1) =>
      f (emit (LogRecord ERROR "connection timeout: retry %s" [Str name]) w1)
  | (Raise e, w1) =>
      (Ret (VInt (- EINVAL)),
       emit (LogRecord ERROR "%s failed: %s" [Str name; Traceback e]) w1)
  end.

(** ** The store, as seen through [self._couchdb] *)

(** [doc['_id']] on a variable that may hold [None]. *)
Definition subscript (doc : option Document) : call Document :=
  match doc with
  | Some d => mret d
  | None => raise TypeError
  end.

Definition couchdb_save (doc : body) : call (string * nat) := λ st,
  let '(r, db) := db_save doc (_couchdb st) in (r, set_couchdb db st).

Definition couchdb_getitem (id : string) : call stored := λ st,
  (db_getitem id (_couchdb st), st).

Definition couchdb_delete (doc : option Document) : call unit :=
  d ← subscript doc;
  (λ st, let '(r, db) := db_delete (d_id d) (d_rev d) (_couchdb st) in
         (r, set_couchdb db st)) : call unit.

Definition couchdb_get_dentry_json (doc : option Document)
  : call (option dentry_map) :=
  d ← subscript doc;
  (λ st, (Ret (db_get_dentry_json (d_id d) (_couchdb st)), st))
    : call (option dentry_map).

Definition couchdb_get_dblock (doc : option Document) : call (option bytes) :=
  d ← subscript doc;
  (λ st, (Ret (db_get_dblock (d_id d) (_couchdb st)), st))
    : call (option bytes).

(** The assignment [doc['_rev'] = rev] as the table of open paths sees it. *)
Definition assign_rev (d : Document) (rev : nat)
    (t : gmap string (Document * Z)) : gmap string (Document * Z) :=
  match d_held d with
  | Some p => alter (λ e, (with_rev rev e.1, e.2)) p t
  | None => t
  end.

Definition couchdb_put_attachment (doc : option Document) (a : attachment)
  : call unit :=
  d ← subscript doc;
  (λ st,
   match db_put_attachment (d_id d) (d_rev d) a (_couchdb st) with
   | (Ret rev, db) =>
       (Ret tt, set_inodes (assign_rev d rev (_inodes st)) (set_couchdb db st))
   | (Raise e, db) => (Raise e, set_couchdb db st)
   end) : call unit.

Definition couchdb_view_by_path (key : string) : call (list Document) := λ st,
  (Ret (omap row_doc (db_view_by_path key (_couchdb st))), st).

(** ** The methods of [CouchFS] *)

Definition ROOT_INODE_ID : string := "root_inode".
Definition INODE_VIEW_ID : string := "_design/inode".
Definition INODE_VIEW : body := mk_body (Some INODE_VIEW_ID) None None.

(** [datetime.now(timezone('UTC')).isoformat()]: a reading of the clock,
    which moves on between readings. *)
Definition _now : call nat := λ st,
  (Ret (clock st),
   mk_CouchFS (_couchdb st) (_inodes st) (S (clock st)) (logger st)).

Definition _get_inode (path : string) : call (option Document) := λ st,
  match _inodes st !! path with
  | Some (inode, _) => (Ret (Some inode), st)
  | None =>
      (results ← couchdb_view_by_path path;
       match results with
       | [] => mret None
       | doc :: _ => mret (Some doc)
       end) st
  end.

Definition _create_inode (path : string) (mode : Z) (_id : option string)
  : call Document :=
  now ← _now;
  let inode :=
    mk_inode_fields path mode
      (if bool_decide (Z.land mode S_IFDIR ≠ 0) then 2 else 1) now now in
  let _id := _id ≫= λ s, if decide (s = EmptyString) then None else Some s in
  '(id, rev) ← couchdb_save (mk_body _id None (Some inode));
  mret (mk_Document id rev inode None).

Definition _get_dblock (inode : option Document) : call bytes :=
  dblock ← couchdb_get_dblock inode;
  mret (default [] dblock).

Definition _put_dblock (inode : option Document) (dblock : bytes) : call unit :=
  logger_debug "_put_dblock: inode=%s, dblock=%s"
    [Doc inode; Buf (slice dblock None (Some 16))];;
  couchdb_put_attachment inode (Att_dblock dblock).

Definition _put_symlink (inode : option Document) (link : string) : call unit :=
  couchdb_put_attachment inode (Att_symlink link).

Definition _get_dentry (inode : option Document) : call dentry_map :=
  dentry_json ← couchdb_get_dentry_json inode;
  match dentry_json with
  | Some d => mret d
  | None => raise AttributeError    (* json.load(None) *)
  end.

Definition _update_inode_timestamp (inode : option Document) : call unit :=
  logger_debug "_update_inode_timestamp: %s" [Doc inode];;
  d ← subscript inode;
  sd ← couchdb_getitem (d_id d);
  now ← _now;
  match sd_inode sd with
  | None => raise KeyError
  | Some i =>
      let i' := mk_inode_fields (i_path i) (i_mode i) (i_nlink i)
                  (i_ctime i) now in
      '(id, rev) ← couchdb_save
                     (mk_body (Some (d_id d)) (Some (sd_rev sd)) (Some i'));
      logger_debug "_update_inode_timestamp: saved: %s"
        [Doc (Some (mk_Document id rev i' None))]
  end.

Definition _put_dentry (inode : option Document) (dentry : dentry_map)
  : call unit :=
  couchdb_put_attachment inode (Att_dentry dentry);;
  _update_inode_timestamp inode.

Definition _add_dentry (path : string) (inode : Document)
  : call (option Document) :=
  let '(dirname, basename) := os_path_split path in
  par_inode ← _get_inode dirname;
  dentry ← _get_dentry par_inode;
  let dentry := <[basename := d_id inode]> dentry in
  _put_dentry par_inode dentry;;
  mret par_inode.

Definition _del_dentry (path : string) : call (option Document) :=
  let '(dirname, basename) := os_path_split path in
  par_inode ← _get_inode dirname;
  dentry ← _get_dentry par_inode;
  match dentry !! basename with
  | None => raise KeyError
  | Some _ =>
      let dentry := delete basename dentry in
      _put_dentry par_inode dentry;;
      mret par_inode
  end.

Definition _init_root : call unit :=
  try_except (couchdb_getitem INODE_VIEW_ID;; mret tt) ResourceNotFound
    (logger_info "Created inode view" [];;
     couchdb_save INODE_VIEW;; mret tt);;
  root_inode ← _get_inode "/";
  match root_inode with
  | Some _ => mret tt
  | None =>
      root_inode ← _create_inode "/" (Z.lor S_IFDIR 365) (Some ROOT_INODE_ID);
      let dentry : dentry_map :=
        <["." := ROOT_INODE_ID]> (<[".." := ROOT_INODE_ID]> ∅) in
      _put_dentry (Some root_inode) dentry;;
      logger_debug "Created root i-Node: %s" [Doc (Some root_inode)]
  end.

(** [CouchFS(db)]: an empty table of open paths, then [_init_root]. *)
Definition CouchFS_init (db : database) (now : nat) : outcome unit * CouchFS :=
  _init_root (mk_CouchFS db ∅ now []).

(** [self._inodes[path]]. *)
Definition inodes_getitem (path : string) : call (Document * Z) := λ st,
  match _inodes st !! path with
  | Some e => (Ret e, st)
  | None => (Raise KeyError, st)
  end.

(** The body of [readdir].  The method contains [yield], so calling it
    runs nothing: it builds a generator, and the body below runs when the
    caller iterates.  The names are [dentry.keys()]. *)
Definition readdir_body (path : string) (offset : Z) : call (list string) :=
  logger_debug "called readdir(%s, %s)" [Str path; Int offset];;
  inode ← _get_inode path;
  dentry ← _get_dentry inode;
  mret (map_to_list dentry).*1.

Definition readdir (path : string) (offset : Z) : call value :=
  exc_handle "readdir"
    (mret (VGenerator (readdir_body path offset)) : call value).

Definition mknod (path : string) (mode dev : Z) : call value :=
  exc_handle "mknod"
    ((logger_debug "called mknod(%s, %s, %s)" [Str path; Int mode; Int dev];;
     existing ← _get_inode path;
     match existing with
     | Some _ => mret (VInt (- EEXIST))
     | None =>
         inode ← _create_inode path mode None;
         _add_dentry path inode;;
         mret VNone
     end)
     : call value).

Definition unlink (path : string) : call value :=
  exc_handle "unlink"
    ((logger_debug "called unlink(%s)" [Str path];;
     inode ← _get_inode path;
     match inode with
     | None => mret (VInt (- ENOENT))
     | Some _ =>
         couchdb_delete inode;;
         _del_dentry path;;
         mret VNone
     end)
     : call value).

Definition rmdir (path : string) : call value :=
  exc_handle "rmdir"
    ((logger_debug "called rmdir(%s)" [Str path];;
     inode ← _get_inode path;
     match inode with
     | None => mret (VInt (- ENOENT))
     | Some _ =>
         dentry ← _get_dentry inode;
         if bool_decide (2 < size dentry)%nat then mret (VInt (- ENOTEMPTY))
         else
           couchdb_delete inode;;
           _del_dentry path;;
           mret VNone
     end)
     : call value).

Definition open (path : string) (flags : Z) : call value :=
  exc_handle "open"
    ((logger_debug "called open(%s, %s)" [Str path; Int flags];;
     inode ← _get_inode path;
     match inode with
     | None => mret (VInt (- ENOENT))
     | Some inode =>
         (λ st,
          let t := _inodes st in
          let t := match t !! path with
                   | Some _ => t
                   | None => <[path := (with_held path inode, 0)]> t
                   end in
          let t := alter (λ e, (e.1, e.2 + 1)) path t in
          (Ret VNone, set_inodes t st)) : call value
     end)
     : call value).

Definition release (path : string) (flags : Z) : call value :=
  exc_handle "release"
    ((logger_debug "called release(%s, %s)" [Str path; Int flags];;
     '(_, refs) ← inodes_getitem path;
     let refs := refs - 1 in
     if refs <=? 0
     then (λ st, (Ret VNone, set_inodes (delete path (_inodes st)) st))
            : call value
     else mret VNone)
     : call value).

Definition read (path : string) (size offset : Z) : call value :=
  exc_handle "read"
    ((logger_debug "called read(%s, %s, %s)" [Str path; Int size; Int offset];;
     '(inode, _) ← inodes_getitem path;
     dblock ← _get_dblock (Some inode);
     mret (VBuf (slice dblock (Some offset) (Some (offset + size)))))
     : call value).

Definition write (path : string) (buf : bytes) (offset : Z)
  : call value :=
  exc_handle "write"
    ((logger_debug "called write(%s, %s, %s)"
       [Str path; Buf (slice buf None (Some 16)); Int offset];;
     '(inode, _) ← inodes_getitem path;
     let buf_len := Z.of_nat (length buf) in
     dblock ← _get_dblock (Some inode);
     let dblock :=
       (slice dblock None (Some offset) ++ buf
        ++ slice dblock (Some (offset + buf_len)) None)%list in
     _put_dblock (Some inode) dblock;;
     mret (VInt buf_len))
     : call value).

Definition mkdir (path : string) (mode : Z) : call value :=
  exc_handle "mkdir"
    ((logger_debug "called mkdir(%s, %s)" [Str path; Int mode];;
     existing ← _get_inode path;
     match existing with
     | Some _ => mret (VInt (- EEXIST))
     | None =>
         inode ← _create_inode path (Z.lor S_IFDIR mode) None;
         par_inode ← _add_dentry path inode;
         par ← subscript par_inode;
         let dentry : dentry_map :=
           <["." := d_id inode]> (<[".." := d_id par]> ∅) in
         _put_dentry (Some inode) dentry;;
         mret VNone
     end)
     : call value).

Definition truncate (path : string) (length : Z) : call value :=
  exc_handle "truncate"
    ((logger_debug "called truncate(%s, %s)" [Str path; Int length];;
     '(inode, _) ← inodes_getitem path;
     dblock ← _get_dblock (Some inode);
     let dblock := slice dblock None (Some length) in
     _put_dblock (Some inode) dblock;;
     mret VNone)
     : call value).

Definition symlink (source path : string) : call value :=
  exc_handle "symlink"
    ((logger_debug "called symlink(%s, %s)" [Str source; Str path];;
     existing ← _get_inode path;
     match existing with
     | Some _ => mret (VInt (- EEXIST))
     | None =>
         inode ← _create_inode path (Z.lor S_IFLNK 511) None;
         _put_symlink (Some inode) source;;
         _add_dentry path inode;;
         mret VNone
     end)
     : call value).

(** ** A small file system to run the methods on *)

(** The driver started on an empty database at time 0. *)
Definition fs0 : CouchFS := (CouchFS_init couchdb.empty 0).2.

(** Run a call for its effect on the state. *)
Definition exec {A} (c : call A) (st : CouchFS) : CouchFS := (c st).2.

Definition b_hello : bytes :=
  [Byte.x68; Byte.x65; Byte.x6c; Byte.x6c; Byte.x6f].

(** ** Vocabulary of the properties *)

Ltac unfold_call :=
  unfold subscript, logger_debug, logger_info, raise, mbind, call_bind,
    mret, call_ret in *.

(** What [_get_inode] returns, as a function of the table of open paths
    and of the database. *)
Definition resolve (st : CouchFS) (path : string) : option Document :=
  match _inodes st !! path with
  | Some (inode, _) => Some inode
  | None => head (omap row_doc (db_view_by_path path (_couchdb st)))
  end.

(** Run a sequence of calls, collecting what each returns. *)
Fixpoint run_all {A} (cs : list (call A)) (st : CouchFS)
  : list (outcome A) * CouchFS :=
  match cs with
  | [] => ([], st)
  | c :: cs' =>
      let '(r, st1) := c st in
      let '(rs, st2) := run_all cs' st1 in
      (r :: rs, st2)
  end.

(** A call that only wrote log records: the database, the table of open
    paths and the clock are as before. *)
Definition only_logged (st st' : CouchFS) : Prop :=
  _couchdb st' = _couchdb st ∧ _inodes st' = _inodes st
  ∧ clock st' = clock st.

(** The content [read] slices: the [dblock] attachment of the document,
    or the empty buffer when the document or the attachment is missing. *)
Definition content (st : CouchFS) (inode : Document) : bytes :=
  default [] (db_get_dblock (d_id inode) (_couchdb st)).

(** The [inode] object a stored document carries. *)
Definition inode_of (db : database) (id : string) : option inode_fields :=
  docs db !! id ≫= sd_inode.

(** [dblock[:offset] + buf + dblock[offset + len(buf):]]. *)
Definition splice (old buf : bytes) (offset : Z) : bytes :=
  slice old None (Some offset) ++ buf
  ++ slice old (Some (offset + Z.of_nat (length buf))) None.

(** A file opened right after [mknod]: the table holds its document at
    the current revision, and the document has no [dblock] attachment. *)
Definition fs_f_open : CouchFS :=
  exec (open "/f" 0) (exec (mknod "/f" 33188 0) fs0).

(** Counting the invocations of a decorated function: the world is paired
    with a counter that every invocation advances. *)
#[global] Instance counting_logging {W} `{Logging W} : Logging (W * nat) :=
  λ r wn, (emit r wn.1, wn.2).

Definition counted {W} (f : W → outcome value * W)
  : W * nat → outcome value * (W * nat) :=
  λ wn, let '(r, w') := f wn.1 in (r, (w', S wn.2)).

(** The number of times [exc_handle name f] invokes [f] from [w]. *)
Definition invocations {W} `{Logging W} (name : string)
    (f : W → outcome value * W) (w : W) : nat :=
  (exc_handle name (counted f) (w, 0%nat)).2.2.

(** A call that times out on the first attempt and fails for another
    reason on the second: it tells the attempts apart by the record the
    decorator logs before it retries. *)
Definition flaky : call value := λ st,
  match logger st with
  | [] => (Raise socket_timeout, st)
  | _ => (Raise KeyError, st)
  end.

Definition retry_record (name : string) : log_record :=
  LogRecord ERROR "connection timeout: retry %s" [Str name].

Definition failed_record (name : string) (e : exn) : log_record :=
  LogRecord ERROR "%s failed: %s" [Str name; Traceback e].

(** The writes a call added to the history of the store. *)
Definition journal (st st' : CouchFS) (l : list request) : Prop :=
  history (_couchdb st') = history (_couchdb st) ++ l.

(** A call works through the writes [full] in order: it applies a prefix
    of them and nothing else, all of them when it returns a value, and it
    does not time out. *)
Definition progress {A} (r : outcome A * CouchFS) (st : CouchFS)
    (full : list request) : Prop :=
  ∃ applied, applied `prefix_of` full ∧ journal st r.2 applied
    ∧ r.1 ≠ Raise socket_timeout ∧ (∀ a, r.1 = Ret a → applied = full).

(** The id of the document the directory part of a path resolves to. *)
Definition parent_id (st : CouchFS) (path : string) : string :=
  default EmptyString (d_id <$> resolve st (os_path_split path).1).

(** What a decorated method did to the store: it applied a prefix of
    [full], in order, and all of [full] when it returned [None]. *)
Definition runs_through (c : call value) (st : CouchFS)
    (full : list request) : Prop :=
  ∃ applied, applied `prefix_of` full ∧ journal st (c st).2 applied
    ∧ ((c st).1 = Ret VNone → applied = full).

(** Logging a record does not touch the store: progress from the state
    with the record is progress from the state without it. *)
Ltac after_logging :=
  match goal with
  | |- progress (?c (emit ?rec ?s)) ?s ?l =>
      change (progress (c (emit rec s)) (emit rec s) l)
  end.

(** The state in which [symlink] turns to the parent: the new document
    is saved and carries its target. *)
Definition symlink_created (source path : string) : call unit :=
  inode ← _create_inode path (Z.lor S_IFLNK 511) None;
  _put_symlink (Some inode) source.

(** The root directory with one file in it, [/f]. *)
Definition fs_f : CouchFS := exec (mknod "/f" 33188 0) fs0.

(** The two shapes of a directory map that C4 speaks of. *)
Definition dots : gset string := {["."; ".."]}.

Definition only_dots (dentry : dentry_map) : Prop := dom dentry = dots.

Definition has_other (dentry : dentry_map) : Prop :=
  ∃ name, name ∈ dom dentry ∧ name ∉ dots.

(** A directory in its place in the tree: the document the path resolves
    to is at its current revision and is not listed under the directory
    part of its own path; the directory part resolves to another document,
    an inode document at its current revision whose map lists the name of
    the directory. *)
Definition linked (st : CouchFS) (path : string) (d : Document) : Prop :=
  ∃ sd par psd pd i,
    docs (_couchdb st) !! d_id d = Some sd ∧ sd_rev sd = d_rev d
    ∧ ¬ emits (os_path_split path).1 (d_id d, sd)
    ∧ resolve st (os_path_split path).1 = Some par ∧ d_id par ≠ d_id d
    ∧ docs (_couchdb st) !! d_id par = Some psd ∧ sd_rev psd = d_rev par
    ∧ sd_inode psd = Some i ∧ sd_dentry psd = Some pd
    ∧ is_Some (pd !! (os_path_split path).2).

(** The root directory with one directory in it, [/d]. *)
Definition fs_d : CouchFS := exec (mkdir "/d" 493) fs0.

(** * Properties *)

(** ** The model at work *)

Example os_path_split_nested : os_path_split "/a/b" = ("/a", "b").
Proof. reflexivity. Qed.
Example os_path_split_top : os_path_split "/a" = ("/", "a").
Proof. reflexivity. Qed.
Example os_path_split_root : os_path_split "/" = ("/", EmptyString).
Proof. reflexivity. Qed.
Example os_path_split_trailing : os_path_split "/a//" = ("/a", EmptyString).
Proof. reflexivity. Qed.
Example os_path_split_relative : os_path_split "a" = (EmptyString, "a").
Proof. reflexivity. Qed.

Example scenario_A :
  let st := exec (mkdir "/a" 493) fs0 in
  let st := exec (mknod "/a/b" 33188 0) st in
  let st := exec (open "/a/b" 0) st in
  let st := exec (write "/a/b" b_hello 0) st in
  let st := exec (release "/a/b" 0) st in
  let st := exec (open "/a/b" 0) st in
  (read "/a/b" 5 0 st).1 = Ret (VBuf b_hello).
Proof. vm_compute. reflexivity. Qed.

(** ** Stepping through calls *)

Lemma bind_Ret {A B} (c : call A) (k : A → call B) st a st' :
  c st = (Ret a, st') → (c ≫= k) st = k a st'.
Proof. intros E. unfold mbind, call_bind. by rewrite E. Qed.

Lemma bind_Raise {A B} (c : call A) (k : A → call B) st e st' :
  c st = (Raise e, st') → (c ≫= k) st = (Raise e, st').
Proof. intros E. unfold mbind, call_bind. by rewrite E. Qed.

Lemma exc_handle_Ret {W} `{Logging W} name f (w w1 : W) v :
  f w = (Ret v, w1) → exc_handle name f w = (Ret v, w1).
Proof. intros E. unfold exc_handle. by rewrite E. Qed.

Lemma exc_handle_Raise {W} `{Logging W} name f (w w1 : W) e :
  f w = (Raise e, w1) → e ≠ socket_timeout →
  exc_handle name f w =
    (Ret (VInt (- EINVAL)),
     emit (LogRecord ERROR "%s failed: %s" [Str name; Traceback e]) w1).
Proof. intros E Hne. unfold exc_handle. rewrite E. by destruct e. Qed.

(** ** Python slices *)

Lemma slice_nonneg {A} (s : list A) (lo n : Z) :
  0 ≤ lo → 0 ≤ n →
  slice s (Some lo) (Some (lo + n)) = take (Z.to_nat n) (drop (Z.to_nat lo) s).
Proof.
  intros Hlo Hn. unfold slice, slice_bound.
  destruct (Z.ltb_spec lo 0); [lia|]. destruct (Z.ltb_spec (lo + n) 0); [lia|].
  set (len := Z.of_nat (length s)).
  destruct (Z.le_gt_cases lo len) as [Hle|Hgt].
  - rewrite (Z.min_l lo len) by lia.
    destruct (Z.le_gt_cases (lo + n) len).
    + rewrite Z.min_l by lia. f_equal. lia.
    + rewrite Z.min_r by lia.
      rewrite (take_ge _ (Z.to_nat n)).
      * apply take_ge. rewrite length_drop. lia.
      * rewrite length_drop. lia.
  - rewrite (Z.min_r lo len) by lia. rewrite Z.min_r by lia.
    rewrite !drop_ge by lia. by rewrite !take_nil.
Qed.

Lemma slice_nil {A} (lo hi : option Z) : slice (@nil A) lo hi = [].
Proof. unfold slice. by rewrite drop_nil, take_nil. Qed.

Lemma slice_prefix_all {A} (s : list A) :
  slice s (Some 0) (Some (0 + Z.of_nat (length s))) = s.
Proof.
  rewrite slice_nonneg by lia. rewrite Nat2Z.id. simpl. by apply take_ge.
Qed.

(** ** [_create_inode] *)

Lemma _create_inode_fresh st path mode :
  let id := fresh (dom (docs (_couchdb st))) in
  let rev := next_rev (_couchdb st) in
  let inode :=
    mk_inode_fields path mode
      (if bool_decide (Z.land mode S_IFDIR ≠ 0) then 2 else 1)
      (clock st) (clock st) in
  _create_inode path mode None st =
    (Ret (mk_Document id rev inode None),
     mk_CouchFS
       (mk_database (<[id := mk_stored rev (Some inode) None None None]>
                       (docs (_couchdb st)))
                    (history (_couchdb st) ++ [Saved id]))
       (_inodes st) (S (clock st)) (logger st)).
Proof. reflexivity. Qed.

(** No mode makes [_create_inode] fail, and both timestamps of the new
    document are the same reading of the clock. *)
Lemma _create_inode_timestamps st path mode :
  ∃ doc st', _create_inode path mode None st = (Ret doc, st')
    ∧ i_ctime (d_inode doc) = clock st ∧ i_mtime (d_inode doc) = clock st
    ∧ (docs (_couchdb st') !! d_id doc ≫= sd_inode) = Some (d_inode doc).
Proof.
  rewrite _create_inode_fresh. do 2 eexists. split; [reflexivity|]. simpl.
  by rewrite lookup_insert_eq.
Qed.

Lemma land_S_IFDIR mode :
  Z.land mode S_IFDIR = if Z.testbit mode 14 then S_IFDIR else 0.
Proof.
  apply Z.bits_inj'. intros n Hn. rewrite Z.land_spec.
  destruct (decide (n = 14)) as [->|Hne].
  - destruct (Z.testbit mode 14); reflexivity.
  - replace (Z.testbit S_IFDIR n) with false.
    + rewrite andb_false_r. destruct (Z.testbit mode 14);
        [|by rewrite Z.bits_0].
      change S_IFDIR with (2 ^ 14). symmetry. apply Z.pow2_bits_false. lia.
    + change S_IFDIR with (2 ^ 14). symmetry. apply Z.pow2_bits_false. lia.
Qed.

(** The link count follows one bit of the mode, bit 14 (the only bit of
    [S_IFDIR]). *)
Lemma _create_inode_nlink st path mode :
  ∃ doc st', _create_inode path mode None st = (Ret doc, st')
    ∧ i_nlink (d_inode doc) = if Z.testbit mode 14 then 2 else 1.
Proof.
  rewrite _create_inode_fresh. do 2 eexists. split; [reflexivity|].
  cbn [d_inode i_nlink]. rewrite land_S_IFDIR.
  destruct (Z.testbit mode 14); reflexivity.
Qed.

(** C9, at a block-device mode.  [mknod] passes the mode it is given to
    [_create_inode]; for [S_IFBLK | 0644], whose file-type bits do not
    denote a directory, the new document gets link count 2, not 1: the
    test [mode & S_IFDIR] looks at one bit, which block devices and sockets
    share with directories.  Both timestamps are the same clock reading. *)
Theorem create_inode_block_device_nlink st path :
  S_ISDIR (Z.lor S_IFBLK 420) = false
  ∧ ∃ doc st',
      _create_inode path (Z.lor S_IFBLK 420) None st = (Ret doc, st')
      ∧ i_mode (d_inode doc) = Z.lor S_IFBLK 420
      ∧ i_nlink (d_inode doc) = 2
      ∧ i_ctime (d_inode doc) = i_mtime (d_inode doc).
Proof.
  split; [reflexivity|]. rewrite _create_inode_fresh.
  do 2 eexists. split; [reflexivity|]. simpl. auto.
Qed.

Example mknod_block_device_nlink :
  let st := exec (mknod "/sda" (Z.lor S_IFBLK 420) 0) fs0 in
  (mknod "/sda" (Z.lor S_IFBLK 420) 0 fs0).1 = Ret VNone
  ∧ i_nlink <$> (docs (_couchdb st) !! "0" ≫= sd_inode) = Some 2.
Proof. vm_compute. auto. Qed.

Example _create_inode_socket_nlink :
  S_ISDIR (Z.lor S_IFSOCK 420) = false
  ∧ i_nlink
      <$> (docs (_couchdb (exec (_create_inode "/s" (Z.lor S_IFSOCK 420) None)
                             fs0)) !! "0" ≫= sd_inode) = Some 2.
Proof. vm_compute. auto. Qed.

(** ** Path resolution *)

Lemma _get_inode_resolve path st :
  _get_inode path st = (Ret (resolve st path), st).
Proof.
  unfold _get_inode, resolve. destruct (_inodes st !! path) as [[inode k]|];
    [reflexivity|].
  unfold_call. unfold couchdb_view_by_path.
  by destruct (omap row_doc _).
Qed.

Lemma resolve_emit r st path : resolve (emit r st) path = resolve st path.
Proof. reflexivity. Qed.

(** Every row of the view has a document. *)
Lemma row_doc_emits key kv :
  emits key kv → ∃ i, sd_inode kv.2 = Some i ∧ i_path i = key
    ∧ row_doc kv = Some (mk_Document kv.1 (sd_rev kv.2) i None).
Proof.
  unfold emits, row_doc. destruct (sd_inode kv.2) as [i|]; simpl; [|done].
  intros [= <-]. eauto.
Qed.

Lemma view_row_elem key db id sd :
  (id, sd) ∈ db_view_by_path key db ↔
  docs db !! id = Some sd ∧ emits key (id, sd).
Proof.
  unfold db_view_by_path. rewrite elem_of_map_to_list.
  rewrite map_lookup_filter_Some. tauto.
Qed.

(** A path that some stored document carries resolves. *)
Lemma resolve_exists st path id sd :
  docs (_couchdb st) !! id = Some sd → emits path (id, sd) →
  ∃ d, resolve st path = Some d.
Proof.
  intros Hid Hem. unfold resolve.
  destruct (_inodes st !! path) as [[inode k]|]; [eauto|].
  assert ((id, sd) ∈ db_view_by_path path (_couchdb st)) as Hin
    by by apply view_row_elem.
  destruct (db_view_by_path path (_couchdb st)) as [|kv rows] eqn:E.
  { by apply not_elem_of_nil in Hin. }
  assert (kv ∈ db_view_by_path path (_couchdb st)) as Hkv
    by (rewrite E; left).
  destruct kv as [id' sd']. apply view_row_elem in Hkv as [_ Hem'].
  destruct (row_doc_emits _ _ Hem') as (i & _ & _ & Hrow).
  simpl. rewrite Hrow. simpl. eauto.
Qed.

(** A path that is neither open nor carried by a stored document does
    not resolve. *)
Lemma resolve_absent st path :
  _inodes st !! path = None →
  (∀ id sd, docs (_couchdb st) !! id = Some sd → ¬ emits path (id, sd)) →
  resolve st path = None.
Proof.
  intros Hc Hno. unfold resolve. rewrite Hc.
  destruct (db_view_by_path path (_couchdb st)) as [|[id sd] rows] eqn:E;
    [reflexivity|].
  assert ((id, sd) ∈ db_view_by_path path (_couchdb st)) as Hin
    by (rewrite E; left).
  apply view_row_elem in Hin as [Hid Hem]. by destruct (Hno id sd).
Qed.

(** A document found through the view is the stored one, at its current
    revision, and no table holds it. *)
Lemma resolve_view st path d :
  _inodes st !! path = None → resolve st path = Some d →
  ∃ sd, docs (_couchdb st) !! d_id d = Some sd
    ∧ sd_rev sd = d_rev d ∧ sd_inode sd = Some (d_inode d)
    ∧ i_path (d_inode d) = path ∧ d_held d = None.
Proof.
  intros Hc. unfold resolve. rewrite Hc.
  destruct (db_view_by_path path (_couchdb st)) as [|[id sd] rows] eqn:E;
    [done|].
  assert ((id, sd) ∈ db_view_by_path path (_couchdb st)) as Hin
    by (rewrite E; left).
  apply view_row_elem in Hin as [Hid Hem].
  destruct (row_doc_emits _ _ Hem) as (i & Hi & Hp & Hrow).
  simpl. rewrite Hrow. simpl. intros [= <-]. simpl in *. eauto 10.
Qed.

(** ** The table of open paths: [open] and [release] *)

Lemma run_all_app {A} (cs1 cs2 : list (call A)) st :
  run_all (cs1 ++ cs2) st =
    ((run_all cs1 st).1 ++ (run_all cs2 (run_all cs1 st).2).1,
     (run_all cs2 (run_all cs1 st).2).2).
Proof.
  revert st. induction cs1 as [|c cs1 IH]; intros st; simpl.
  - by destruct (run_all cs2 st).
  - destruct (c st) as [r st1]. rewrite IH.
    destruct (run_all cs1 st1) as [rs st2]. simpl.
    by destruct (run_all cs2 st2).
Qed.

Lemma open_miss st path flags d :
  _inodes st !! path = None → resolve st path = Some d →
  ∃ st', open path flags st = (Ret VNone, st')
    ∧ _inodes st' = <[path := (with_held path d, 1)]> (_inodes st)
    ∧ _couchdb st' = _couchdb st.
Proof.
  intros Hc Hr. eexists. split.
  - unfold open. apply exc_handle_Ret. unfold_call.
    rewrite _get_inode_resolve, resolve_emit, Hr. simpl. rewrite Hc.
    reflexivity.
  - simpl. split; [|done]. by rewrite alter_insert_eq.
Qed.

Lemma open_hit st path flags d k :
  _inodes st !! path = Some (d, k) →
  ∃ st', open path flags st = (Ret VNone, st')
    ∧ _inodes st' = <[path := (d, k + 1)]> (_inodes st)
    ∧ _couchdb st' = _couchdb st.
Proof.
  intros Hc. eexists. split.
  - unfold open. apply exc_handle_Ret. unfold_call.
    rewrite _get_inode_resolve, resolve_emit. unfold resolve. rewrite Hc.
    simpl. rewrite Hc. reflexivity.
  - simpl. split; [|done]. apply map_eq. intros p.
    rewrite lookup_alter, lookup_insert. case_decide; subst; [|done].
    by rewrite Hc.
Qed.

(** [release] on an entry whose count is above 1: the count it decrements
    is a local variable, and the table keeps the count it had. *)
Lemma release_shared st path flags d k :
  _inodes st !! path = Some (d, k) → 1 < k →
  ∃ st', release path flags st = (Ret VNone, st')
    ∧ _inodes st' = _inodes st ∧ _couchdb st' = _couchdb st.
Proof.
  intros Hc Hk. eexists. split.
  - unfold release. apply exc_handle_Ret. unfold_call. unfold inodes_getitem.
    simpl. rewrite Hc. destruct (Z.leb_spec (k - 1) 0); [lia|]. reflexivity.
  - done.
Qed.

Lemma release_last st path flags d k :
  _inodes st !! path = Some (d, k) → k ≤ 1 →
  ∃ st', release path flags st = (Ret VNone, st')
    ∧ _inodes st' = delete path (_inodes st) ∧ _couchdb st' = _couchdb st.
Proof.
  intros Hc Hk. eexists. split.
  - unfold release. apply exc_handle_Ret. unfold_call. unfold inodes_getitem.
    simpl. rewrite Hc. destruct (Z.leb_spec (k - 1) 0); [|lia]. reflexivity.
  - done.
Qed.

(** After [n ≥ 1] calls of [open] on a path that resolves and was not
    open, every call has returned [None] and the table holds the path
    with count [n]. *)
Lemma opens_count st path flags d (n : nat) :
  _inodes st !! path = None → resolve st path = Some d →
  let r := run_all (replicate (S n) (open path flags)) st in
  r.1 = replicate (S n) (Ret VNone)
  ∧ _inodes r.2 = <[path := (with_held path d, Z.of_nat (S n))]> (_inodes st)
  ∧ _couchdb r.2 = _couchdb st.
Proof.
  intros Hc Hr. induction n as [|n IH].
  - destruct (open_miss st path flags d Hc Hr) as (st' & E & Ht & Hdb).
    simpl. rewrite E. simpl. auto.
  - rewrite (replicate_S_end (S n)).
    rewrite run_all_app. cbv zeta in IH. destruct IH as (IH1 & IH2 & IH3).
    set (st1 := (run_all (replicate (S n) (open path flags)) st).2) in *.
    destruct (open_hit st1 path flags (with_held path d) (Z.of_nat (S n)))
      as (st' & E & Ht & Hdb).
    { rewrite IH2. apply lookup_insert_eq. }
    cbn [run_all fst snd]. rewrite E. cbn [fst snd]. split_and!.
    + rewrite IH1. by rewrite <-replicate_S_end.
    + rewrite Ht, IH2, insert_insert_eq. do 3 f_equal. lia.
    + by rewrite Hdb.
Qed.

(** Releasing a path whose count is above 1 any number of times returns
    [None] each time and changes neither the table nor the database. *)
Lemma releases_shared st path flags d k (m : nat) :
  _inodes st !! path = Some (d, k) → 1 < k →
  let r := run_all (replicate m (release path flags)) st in
  r.1 = replicate m (Ret VNone)
  ∧ _inodes r.2 = _inodes st ∧ _couchdb r.2 = _couchdb st.
Proof.
  intros Hc Hk. revert st Hc. induction m as [|m IH]; intros st Hc; [done|].
  destruct (release_shared st path flags d k Hc Hk) as (st' & E & Ht & Hdb).
  simpl. rewrite E.
  destruct (IH st') as (IH1 & IH2 & IH3); [by rewrite Ht|].
  destruct (run_all (replicate m (release path flags)) st') as [rs st2].
  simpl in *. rewrite IH1, IH2, IH3. auto.
Qed.

(** C1, for two or more opens.  After [n ≥ 2] calls of [open] on a path,
    the table holds the path with count [n]; every later [release]
    returns [None] and leaves the entry where it is, with count [n].  In
    particular the entry is still there after the [n]-th release: the
    decrement in [release] is made on a local copy of the count and is
    never stored back, so the entry is dropped only when the stored count
    is 1. *)
Theorem release_keeps_entry_opened_twice st path flags d (n m : nat) :
  _inodes st !! path = None → resolve st path = Some d → (2 ≤ n)%nat →
  let r := run_all (replicate n (open path flags)
                    ++ replicate m (release path flags)) st in
  r.1 = replicate (n + m) (Ret VNone)
  ∧ _inodes r.2 !! path = Some (with_held path d, Z.of_nat n).
Proof.
  intros Hc Hr Hn. destruct n as [|n]; [lia|].
  destruct (opens_count st path flags d n Hc Hr) as (O1 & O2 & O3).
  set (st1 := (run_all (replicate (S n) (open path flags)) st).2) in *.
  assert (_inodes st1 !! path = Some (with_held path d, Z.of_nat (S n)))
    as Hc1 by (rewrite O2; apply lookup_insert_eq).
  destruct (releases_shared st1 path flags _ _ m Hc1) as (R1 & R2 & R3);
    [lia|].
  cbv zeta. rewrite run_all_app. fold st1. cbn [fst snd].
  rewrite O1, R1, R2. split; [|done]. by rewrite replicate_add.
Qed.

Lemma release_keeps_entry_opened_twice_witness :
  let d := mk_Document "0" 5 (mk_inode_fields "/f" 33188 1 2 2) None in
  let r := run_all (replicate 2 (open "/f" 0) ++ replicate 2 (release "/f" 0))
             fs_f in
  r.1 = replicate (2 + 2) (Ret VNone)
  ∧ _inodes r.2 !! "/f" = Some (with_held "/f" d, Z.of_nat 2).
Proof.
  apply release_keeps_entry_opened_twice;
    [vm_compute; reflexivity | vm_compute; reflexivity | lia].
Defined.

(** With a single open the claim holds: the one release drops the entry. *)
Lemma release_drops_entry_opened_once st path flags d :
  _inodes st !! path = None → resolve st path = Some d →
  let r := run_all [open path flags; release path flags] st in
  r.1 = [Ret VNone; Ret VNone] ∧ _inodes r.2 !! path = None.
Proof.
  intros Hc Hr.
  destruct (open_miss st path flags d Hc Hr) as (st1 & E1 & Ht1 & _).
  destruct (release_last st1 path flags (with_held path d) 1)
    as (st2 & E2 & Ht2 & _); [by rewrite Ht1, lookup_insert_eq|lia|].
  simpl. rewrite E1, E2. simpl. split; [done|].
  rewrite Ht2. apply lookup_delete_eq.
Qed.

(** ** Paths that do not exist *)

Lemma unlink_absent st path :
  resolve st path = None → (unlink path st).1 = Ret (VInt (- ENOENT)).
Proof.
  intros Hr. unfold unlink. erewrite exc_handle_Ret; [reflexivity|].
  unfold_call. rewrite _get_inode_resolve, resolve_emit, Hr. reflexivity.
Qed.

Lemma rmdir_absent st path :
  resolve st path = None → (rmdir path st).1 = Ret (VInt (- ENOENT)).
Proof.
  intros Hr. unfold rmdir. erewrite exc_handle_Ret; [reflexivity|].
  unfold_call. rewrite _get_inode_resolve, resolve_emit, Hr. reflexivity.
Qed.

Lemma open_absent st path flags :
  resolve st path = None → (open path flags st).1 = Ret (VInt (- ENOENT)).
Proof.
  intros Hr. unfold open. erewrite exc_handle_Ret; [reflexivity|].
  unfold_call. rewrite _get_inode_resolve, resolve_emit, Hr. reflexivity.
Qed.

(** C7, on a path that does not exist.  [readdir] has no test for a
    missing inode, unlike [unlink], [rmdir] and [open] just above: the
    call hands back a generator without running anything, and the first
    iteration passes [None] to [get_attachment], which raises [TypeError].
    The decorator has returned by then, so nothing turns the exception
    into an error code; in particular the caller never sees [-ENOENT]. *)
Theorem readdir_absent_raises st path offset :
  resolve st path = None →
  ∃ g, readdir path offset st = (Ret (VGenerator g), st)
    ∧ (g st).1 = Raise TypeError
    ∧ readdir path offset st ≠ (Ret (VInt (- ENOENT)), st).
Proof.
  intros Hr.
  exists (readdir_body path offset). split_and!; [reflexivity| |done].
  unfold readdir_body, _get_dentry, couchdb_get_dentry_json. unfold_call.
  rewrite _get_inode_resolve, resolve_emit, Hr. reflexivity.
Qed.

Lemma readdir_absent_raises_witness :
  ∃ g, readdir "/nope" 0 fs0 = (Ret (VGenerator g), fs0)
    ∧ (g fs0).1 = Raise TypeError
    ∧ readdir "/nope" 0 fs0 ≠ (Ret (VInt (- ENOENT)), fs0).
Proof. apply readdir_absent_raises. vm_compute. reflexivity. Defined.

Example readdir_root : ∃ g,
  (readdir "/" 0 fs0).1 = Ret (VGenerator g) ∧ (g fs0).1 = Ret [".."; "."].
Proof. eexists. split; [reflexivity|]. vm_compute. reflexivity. Qed.

(** ** Creating on a path that exists *)

(** C8.  When some stored document carries the path, whatever its mode
    and attachments, [mknod], [mkdir] and [symlink] each return [-EEXIST]
    and send nothing to the store: the database, its history included, is
    unchanged, and so is the table of open paths. *)
Theorem create_on_existing_path st path id sd mode dev source :
  docs (_couchdb st) !! id = Some sd → emits path (id, sd) →
  (∃ st', mknod path mode dev st = (Ret (VInt (- EEXIST)), st')
          ∧ only_logged st st')
  ∧ (∃ st', mkdir path mode st = (Ret (VInt (- EEXIST)), st')
            ∧ only_logged st st')
  ∧ (∃ st', symlink source path st = (Ret (VInt (- EEXIST)), st')
            ∧ only_logged st st').
Proof.
  intros Hid Hem. destruct (resolve_exists st path id sd Hid Hem) as [d Hr].
  split_and!; eexists; (split; [|shelve]).
  - unfold mknod. apply exc_handle_Ret. unfold_call.
    rewrite _get_inode_resolve, resolve_emit, Hr. reflexivity.
  - unfold mkdir. apply exc_handle_Ret. unfold_call.
    rewrite _get_inode_resolve, resolve_emit, Hr. reflexivity.
  - unfold symlink. apply exc_handle_Ret. unfold_call.
    rewrite _get_inode_resolve, resolve_emit, Hr. reflexivity.
  Unshelve. all: done.
Qed.

Lemma create_on_existing_path_witness :
  (∃ st', mknod "/" 493 0 fs0 = (Ret (VInt (- EEXIST)), st')
          ∧ only_logged fs0 st')
  ∧ (∃ st', mkdir "/" 493 fs0 = (Ret (VInt (- EEXIST)), st')
            ∧ only_logged fs0 st')
  ∧ (∃ st', symlink "/x" "/" fs0 = (Ret (VInt (- EEXIST)), st')
            ∧ only_logged fs0 st').
Proof.
  destruct (docs (_couchdb fs0) !! "root_inode") as [sd|] eqn:Hsd;
    [|by vm_compute in Hsd].
  refine (create_on_existing_path fs0 "/" "root_inode" sd 493 0 "/x" Hsd _).
  vm_compute in Hsd. injection Hsd as <-. vm_compute. reflexivity.
Defined.

(** A path held in the table of open paths counts as existing too, even
    when its document has left the store. *)
Lemma create_on_open_path st path d k mode dev :
  _inodes st !! path = Some (d, k) →
  (mknod path mode dev st).1 = Ret (VInt (- EEXIST)).
Proof.
  intros Hc. unfold mknod. erewrite exc_handle_Ret; [reflexivity|].
  unfold_call. rewrite _get_inode_resolve, resolve_emit. unfold resolve.
  rewrite Hc. reflexivity.
Qed.

(** ** Reading *)

(** A slice of a buffer is a contiguous run of it, never longer than the
    buffer. *)
Lemma slice_contiguous {A} (s : list A) lo hi :
  ∃ i n, slice s lo hi = take n (drop i s) ∧ (i + n ≤ length s)%nat.
Proof.
  unfold slice. set (l := match lo with Some _ => _ | None => _ end).
  set (h := match hi with Some _ => _ | None => _ end).
  destruct (decide (Z.to_nat l ≤ length s)%nat) as [Hl|Hl].
  - exists (Z.to_nat l), (Z.to_nat (h - l) `min` (length s - Z.to_nat l))%nat.
    split; [|lia].
    destruct (decide (Z.to_nat (h - l) ≤ length s - Z.to_nat l)%nat).
    + by rewrite Nat.min_l by lia.
    + rewrite Nat.min_r by lia.
      rewrite !take_ge; [done|rewrite length_drop; lia..].
  - exists (length s), 0%nat. split; [|lia].
    rewrite !drop_ge by lia. by rewrite take_nil.
Qed.

(** [read] only logs. *)
Lemma read_only_logged st path size offset :
  only_logged st (read path size offset st).2.
Proof.
  unfold read, exc_handle. unfold_call. unfold inodes_getitem. simpl.
  destruct (_inodes st !! path) as [[inode refs]|]; done.
Qed.

(** [read] on an open path. *)
Lemma read_open st path size offset inode refs :
  _inodes st !! path = Some (inode, refs) →
  (read path size offset st).1
    = Ret (VBuf (slice (content st inode) (Some offset)
                   (Some (offset + size)))).
Proof.
  intros Hc. unfold read. erewrite exc_handle_Ret; [reflexivity|].
  unfold_call. unfold inodes_getitem. simpl. rewrite Hc. reflexivity.
Qed.

(** C10.  [read] changes neither the database (documents, attachments,
    history) nor the table of open paths nor the clock, whether it
    succeeds or not.  On an open path it returns the slice
    [dblock[offset:offset + size]] of the content; for non-negative
    [offset] and [size] that is the [size] bytes from [offset] on, cut off
    at the end of the content. *)
Theorem read_pure st path size offset :
  only_logged st (read path size offset st).2
  ∧ ∀ inode refs, _inodes st !! path = Some (inode, refs) →
      (read path size offset st).1
        = Ret (VBuf (slice (content st inode) (Some offset)
                       (Some (offset + size))))
      ∧ (∃ i n, slice (content st inode) (Some offset) (Some (offset + size))
                  = take n (drop i (content st inode))
                ∧ (i + n ≤ length (content st inode))%nat)
      ∧ (0 ≤ offset → 0 ≤ size →
         slice (content st inode) (Some offset) (Some (offset + size))
           = take (Z.to_nat size) (drop (Z.to_nat offset) (content st inode))).
Proof.
  split; [apply read_only_logged|].
  intros inode refs Hc. split_and!.
  - by apply (read_open st path size offset inode refs).
  - apply slice_contiguous.
  - apply slice_nonneg.
Qed.

Lemma read_pure_witness :
  let st := exec (write "/f" b_hello 0)
              (exec (open "/f" 0) (exec (mknod "/f" 33188 0) fs0)) in
  let inode := mk_Document "0" 8 (mk_inode_fields "/f" 33188 1 2 2)
                 (Some "/f") in
  only_logged st (read "/f" 3 1 st).2
  ∧ (read "/f" 3 1 st).1 = Ret (VBuf [Byte.x65; Byte.x6c; Byte.x6c])
  ∧ take 3 (drop 1 (content st inode)) = [Byte.x65; Byte.x6c; Byte.x6c].
Proof.
  intros st inode. destruct (read_pure st "/f" 3 1) as [H1 H2].
  destruct (H2 inode 1) as (R1 & _ & R3); [vm_compute; reflexivity|].
  split; [exact H1|]. rewrite R1, R3 by lia.
  vm_compute. auto.
Defined.

(** ** Writing and truncating *)

(** A relation between states that every step of a decorated call keeps
    is kept by the decorated call. *)
Lemma exc_handle_invariant {W} `{Logging W} (R : W → W → Prop) name f w :
  (∀ w, R w (f w).2) → (∀ r w, R w (emit r w)) →
  (∀ a b c, R a b → R b c → R a c) →
  R w (exc_handle name f w).2.
Proof.
  intros Hf He Ht. unfold exc_handle. pose proof (Hf w) as H1.
  destruct (f w) as [[v|e] w1]; simpl in *; [done|].
  destruct e; simpl; eauto.
Qed.

Lemma db_put_attachment_inode id rev a db id' :
  inode_of (db_put_attachment id rev a db).2 id' = inode_of db id'.
Proof.
  unfold db_put_attachment, inode_of.
  destruct (docs db !! id) as [sd|] eqn:E; [|done].
  case_decide; [|done]. simpl.
  destruct (decide (id = id')) as [<-|Hne].
  - rewrite lookup_insert_eq, E. by destruct a.
  - by rewrite lookup_insert_ne.
Qed.

Lemma _put_dblock_inode inode b st id :
  inode_of (_couchdb (_put_dblock inode b st).2) id = inode_of (_couchdb st) id.
Proof.
  unfold _put_dblock, couchdb_put_attachment. unfold_call. simpl.
  destruct inode as [d|]; [|done]. simpl.
  pose proof (db_put_attachment_inode (d_id d) (d_rev d) (Att_dblock b)
                (_couchdb st) id) as H.
  destruct (db_put_attachment _ _ _ _) as [[rev|e] db]; simpl in *; done.
Qed.

(** C6, as the code has it.  [write] and [truncate] replace the [dblock]
    attachment and nothing else: whatever they return, the [inode] object
    of every stored document, with its [mtime] and [ctime], is what it was
    before the call.  ([_put_dblock] does not call
    [_update_inode_timestamp]; only [_put_dentry] does.) *)
Theorem write_truncate_keep_inode st path buf offset length id :
  inode_of (_couchdb (write path buf offset st).2) id
    = inode_of (_couchdb st) id
  ∧ inode_of (_couchdb (truncate path length st).2) id
    = inode_of (_couchdb st) id.
Proof.
  split.
  - unfold write.
    apply (exc_handle_invariant
             (λ a b, inode_of (_couchdb b) id = inode_of (_couchdb a) id));
      [|done|congruence].
    intros w. unfold_call. unfold inodes_getitem, _get_dblock,
      couchdb_get_dblock. unfold_call. simpl.
    destruct (_inodes w !! path) as [[inode refs]|]; [|done]. simpl.
    match goal with
    | |- context [_put_dblock ?i ?b ?s] =>
        pose proof (_put_dblock_inode i b s id) as H;
        destruct (_put_dblock i b s) as [[[]|e] s']
    end; simpl in *; done.
  - unfold truncate.
    apply (exc_handle_invariant
             (λ a b, inode_of (_couchdb b) id = inode_of (_couchdb a) id));
      [|done|congruence].
    intros w. unfold_call. unfold inodes_getitem, _get_dblock,
      couchdb_get_dblock. unfold_call. simpl.
    destruct (_inodes w !! path) as [[inode refs]|]; [|done]. simpl.
    match goal with
    | |- context [_put_dblock ?i ?b ?s] =>
        pose proof (_put_dblock_inode i b s id) as H;
        destruct (_put_dblock i b s) as [[[]|e] s']
    end; simpl in *; done.
Qed.

(** [write] on an open path whose document the table holds at its current
    revision. *)
Lemma write_current st path buf offset inode refs sd :
  _inodes st !! path = Some (inode, refs) →
  docs (_couchdb st) !! d_id inode = Some sd → sd_rev sd = d_rev inode →
  let rev := next_rev (_couchdb st) in
  let new := splice (default [] (sd_dblock sd)) buf offset in
  ∃ st', write path buf offset st = (Ret (VInt (Z.of_nat (length buf))), st')
    ∧ docs (_couchdb st')
      = <[d_id inode := attach (Att_dblock new) rev sd]> (docs (_couchdb st))
    ∧ history (_couchdb st')
      = history (_couchdb st) ++ [Attached (d_id inode) "dblock"]
    ∧ _inodes st' = assign_rev inode rev (_inodes st)
    ∧ clock st' = clock st.
Proof.
  intros Hc Hsd Hrev rev new. eexists. split.
  - unfold write. apply exc_handle_Ret. unfold_call.
    unfold inodes_getitem, _get_dblock, _put_dblock, couchdb_get_dblock,
      couchdb_put_attachment, db_put_attachment, db_get_dblock.
    unfold_call. simpl. rewrite Hc. simpl. rewrite Hsd. simpl.
    rewrite decide_True by done. reflexivity.
  - simpl. done.
Qed.

Lemma truncate_current st path length inode refs sd :
  _inodes st !! path = Some (inode, refs) →
  docs (_couchdb st) !! d_id inode = Some sd → sd_rev sd = d_rev inode →
  let rev := next_rev (_couchdb st) in
  let new := slice (default [] (sd_dblock sd)) None (Some length) in
  ∃ st', truncate path length st = (Ret VNone, st')
    ∧ docs (_couchdb st')
      = <[d_id inode := attach (Att_dblock new) rev sd]> (docs (_couchdb st))
    ∧ _inodes st' = assign_rev inode rev (_inodes st)
    ∧ clock st' = clock st.
Proof.
  intros Hc Hsd Hrev rev new. eexists. split.
  - unfold truncate. apply exc_handle_Ret. unfold_call.
    unfold inodes_getitem, _get_dblock, _put_dblock, couchdb_get_dblock,
      couchdb_put_attachment, db_put_attachment, db_get_dblock.
    unfold_call. simpl. rewrite Hc. simpl. rewrite Hsd. simpl.
    rewrite decide_True by done. reflexivity.
  - simpl. done.
Qed.

(** The assignment of a revision keeps every entry of the table under
    its key, with its document id and its count. *)
Lemma assign_rev_lookup d rev t path inode refs :
  t !! path = Some (inode, refs) →
  ∃ inode', assign_rev d rev t !! path = Some (inode', refs)
    ∧ d_id inode' = d_id inode.
Proof.
  intros Hc. unfold assign_rev. destruct (d_held d) as [p|]; [|eauto].
  rewrite lookup_alter. case_decide; subst; rewrite Hc; simpl; eauto.
Qed.

(** C6, as stated, fails.  A write that succeeds and changes the content
    leaves the persisted [mtime] at the time of creation, which is before
    the time of the write; so does a truncate that succeeds. *)
Lemma write_truncate_mtime_not_updated :
  let st := fs_f_open in
  let st1 := exec (write "/f" b_hello 0) st in
  let st2 := exec (truncate "/f" 2) st1 in
  (write "/f" b_hello 0 st).1 = Ret (VInt 5)
  ∧ db_get_dblock "0" (_couchdb st) = None
  ∧ db_get_dblock "0" (_couchdb st1) = Some b_hello
  ∧ i_mtime <$> inode_of (_couchdb st) "0" = Some 2%nat
  ∧ i_mtime <$> inode_of (_couchdb st1) "0" = Some 2%nat
  ∧ (2 < clock st)%nat
  ∧ (truncate "/f" 2 st1).1 = Ret VNone
  ∧ db_get_dblock "0" (_couchdb st2) = Some [Byte.x68; Byte.x65]
  ∧ i_mtime <$> inode_of (_couchdb st2) "0" = Some 2%nat.
Proof. vm_compute. repeat split; lia. Qed.

(** ** Write, then read *)

Lemma drop_eq_self {A} (l : list A) (n : nat) :
  drop n l = l ↔ n = 0%nat ∨ l = [].
Proof.
  split.
  - intros E. destruct n as [|n]; [by left|]. right.
    destruct l as [|x l]; [done|].
    apply (f_equal length) in E. rewrite length_drop in E. simpl in E. lia.
  - intros [->| ->]; [done|apply drop_nil].
Qed.

(** [write] on an open file without content, then [read] of as many bytes
    at the same offset. *)
Lemma write_then_read_empty st path buf offset inode refs sd :
  _inodes st !! path = Some (inode, refs) →
  docs (_couchdb st) !! d_id inode = Some sd → sd_rev sd = d_rev inode →
  sd_dblock sd = None → 0 ≤ offset →
  let n := Z.of_nat (length buf) in
  ∃ st', write path buf offset st = (Ret (VInt n), st')
    ∧ db_get_dblock (d_id inode) (_couchdb st') = Some buf
    ∧ (read path n offset st').1 = Ret (VBuf (drop (Z.to_nat offset) buf)).
Proof.
  intros Hc Hsd Hrev Hempty Ho n.
  destruct (write_current st path buf offset inode refs sd Hc Hsd Hrev)
    as (st' & Ew & Hdocs & _ & Ht & _).
  rewrite Hempty in Hdocs. simpl in Hdocs. unfold splice in Hdocs.
  rewrite !slice_nil, app_nil_r in Hdocs. simpl in Hdocs.
  assert (db_get_dblock (d_id inode) (_couchdb st') = Some buf) as Hblock.
  { unfold db_get_dblock. by rewrite Hdocs, lookup_insert_eq. }
  destruct (assign_rev_lookup inode (next_rev (_couchdb st)) _ _ _ _ Hc)
    as (inode' & Hc' & Hid). rewrite <-Ht in Hc'.
  exists st'. split_and!; [done|done|].
  rewrite (read_open st' path n offset inode' refs Hc').
  rewrite slice_nonneg by lia. unfold content. rewrite Hid, Hblock. simpl.
  do 2 f_equal. apply take_ge. rewrite length_drop. lia.
Qed.

(** C2, on a file without content.  On an open path whose document has
    no [dblock] attachment, [write(path, B, o)] with [o ≥ 0] stores [B]
    from position 0 on, wherever [o] points: the slices of the empty
    content around [o] are empty, and nothing pads the gap.
    [read(path, len(B), o)] then returns [B[o:]].  That is [B] exactly
    when [o = 0] or [B] is empty. *)
Theorem write_read_empty_file st path buf offset inode refs sd :
  _inodes st !! path = Some (inode, refs) →
  docs (_couchdb st) !! d_id inode = Some sd → sd_rev sd = d_rev inode →
  sd_dblock sd = None → 0 ≤ offset →
  let n := Z.of_nat (length buf) in
  ∃ st', write path buf offset st = (Ret (VInt n), st')
    ∧ db_get_dblock (d_id inode) (_couchdb st') = Some buf
    ∧ (read path n offset st').1 = Ret (VBuf (drop (Z.to_nat offset) buf))
    ∧ (drop (Z.to_nat offset) buf = buf ↔ offset = 0 ∨ buf = []).
Proof.
  intros Hc Hsd Hrev Hempty Ho n.
  destruct (write_then_read_empty st path buf offset inode refs sd)
    as (st' & Ew & Hb & Er); [done..|].
  exists st'. split_and!; [done..|].
  rewrite drop_eq_self. split; (intros [H| ->]; [left|by right]); lia.
Qed.

Lemma write_read_empty_file_witness :
  let buf := [Byte.x61; Byte.x62] in
  ∃ st', write "/f" buf 1 fs_f_open = (Ret (VInt (Z.of_nat (length buf))), st')
    ∧ db_get_dblock "0" (_couchdb st') = Some buf
    ∧ (read "/f" (Z.of_nat (length buf)) 1 st').1
      = Ret (VBuf (drop (Z.to_nat 1) buf))
    ∧ (drop (Z.to_nat 1) buf = buf ↔ 1 = 0 ∨ buf = []).
Proof.
  intros buf.
  destruct (docs (_couchdb fs_f_open) !! "0") as [sd|] eqn:Hsd;
    [|by vm_compute in Hsd].
  refine (write_read_empty_file fs_f_open "/f" buf 1
            (mk_Document "0" 5 (mk_inode_fields "/f" 33188 1 2 2) (Some "/f"))
            1 sd _ Hsd _ _ _).
  - vm_compute. reflexivity.
  - vm_compute in Hsd. injection Hsd as <-. reflexivity.
  - vm_compute in Hsd. injection Hsd as <-. reflexivity.
  - lia.
Defined.

(** The failing input of C2, run: two bytes written at offset 1 of an
    empty file, then two bytes read at offset 1.  The file holds the two
    bytes at offset 0, and the read returns the second byte only. *)
Example write_read_offset_1 :
  let buf := [Byte.x61; Byte.x62] in
  let st := exec (write "/f" buf 1) fs_f_open in
  (write "/f" buf 1 fs_f_open).1 = Ret (VInt 2)
  ∧ db_get_dblock "0" (_couchdb st) = Some buf
  ∧ (read "/f" 2 1 st).1 = Ret (VBuf [Byte.x62]).
Proof. vm_compute. auto. Qed.

(** At offset 0 the round trip holds. *)
Lemma write_read_offset_0 st path buf inode refs sd :
  _inodes st !! path = Some (inode, refs) →
  docs (_couchdb st) !! d_id inode = Some sd → sd_rev sd = d_rev inode →
  sd_dblock sd = None →
  let n := Z.of_nat (length buf) in
  ∃ st', write path buf 0 st = (Ret (VInt n), st')
    ∧ (read path n 0 st').1 = Ret (VBuf buf).
Proof.
  intros Hc Hsd Hrev Hempty n.
  destruct (write_then_read_empty st path buf 0 inode refs sd)
    as (st' & Ew & _ & Er); [done..|lia|].
  exists st'. split; [done|]. subst n. by rewrite Er.
Qed.

(** ** The decorator *)

(** Counting does not change what the decorated call does. *)
Lemma exc_handle_counted {W} `{Logging W} name f (w : W) n :
  (exc_handle name (counted f) (w, n)).1 = (exc_handle name f w).1
  ∧ (exc_handle name (counted f) (w, n)).2.1 = (exc_handle name f w).2.
Proof.
  unfold exc_handle, counted. simpl.
  destruct (f w) as [[v|e] w1]; simpl; [done|].
  destruct e; simpl; try done.
  by destruct (f (emit _ w1)).
Qed.

(** C3, as the code has it.  The outcome of the first attempt decides:
    - a value is handed back, after one invocation;
    - [socket.timeout] is logged and the function is invoked a second
      time, once; whatever the second attempt does, value or exception,
      is what the caller gets, unlogged and untranslated;
    - any other exception is logged and the caller gets [-EINVAL], after
      one invocation. *)
Theorem exc_handle_first_attempt {W} `{Logging W} name f (w w1 : W) :
  (∀ v, f w = (Ret v, w1) →
     exc_handle name f w = (Ret v, w1) ∧ invocations name f w = 1%nat)
  ∧ (f w = (Raise socket_timeout, w1) →
     exc_handle name f w = f (emit (retry_record name) w1)
     ∧ invocations name f w = 2%nat)
  ∧ (∀ e, e ≠ socket_timeout → f w = (Raise e, w1) →
     exc_handle name f w
       = (Ret (VInt (- EINVAL)), emit (failed_record name e) w1)
     ∧ invocations name f w = 1%nat).
Proof.
  unfold invocations, exc_handle, counted. simpl. split_and!.
  - intros v ->. done.
  - intros ->. split; [done|]. simpl.
    by destruct (f (emit _ w1)).
  - intros e Hne ->. by destruct e.
Qed.

Lemma exc_handle_first_attempt_witness :
  let w := mk_CouchFS couchdb.empty ∅ 0 [] in
  exc_handle "flaky" flaky w = flaky (emit (retry_record "flaky") w)
  ∧ invocations "flaky" flaky w = 2%nat.
Proof.
  intros w.
  destruct (exc_handle_first_attempt "flaky" flaky w w) as (_ & H & _).
  apply H. reflexivity.
Defined.

(** C3, as stated, fails.  [flaky] times out on the first attempt and
    raises [KeyError] on the retry.  [KeyError] is a failure other than a
    timeout, yet the decorated call raises it to the caller instead of
    returning [-EINVAL], and the only record logged is the one announcing
    the retry. *)
Lemma exc_handle_retry_failure_escapes :
  let w := mk_CouchFS couchdb.empty ∅ 0 [] in
  exc_handle "flaky" flaky w
    = (Raise KeyError, mk_CouchFS couchdb.empty ∅ 0 [retry_record "flaky"])
  ∧ (exc_handle "flaky" flaky w).1 ≠ Ret (VInt (- EINVAL)).
Proof. split; [reflexivity|done]. Qed.

(** The exceptions of a generator are out of the decorator's reach as
    well: [readdir] has returned when its body runs. *)
Example readdir_regular_file_raises : ∃ g,
  let st := exec (mknod "/f" 33188 0) fs0 in
  (readdir "/f" 0 st).1 = Ret (VGenerator g)
  ∧ (g st).1 = Raise AttributeError.
Proof. eexists. split; [reflexivity|]. vm_compute. reflexivity. Qed.

(** ** The order of writes *)

Lemma journal_refl st st' :
  history (_couchdb st') = history (_couchdb st) → journal st st' [].
Proof. intros E. unfold journal. by rewrite E, app_nil_r. Qed.

Lemma journal_trans st st1 st2 l1 l2 :
  journal st st1 l1 → journal st1 st2 l2 → journal st st2 (l1 ++ l2).
Proof. unfold journal. intros E1 E2. by rewrite E2, E1, app_assoc. Qed.

Lemma progress_bind {A B} (c : call A) (k : A → call B) st l1 l2 :
  progress (c st) st l1 →
  (∀ a st1, c st = (Ret a, st1) → progress (k a st1) st1 l2) →
  progress ((c ≫= k) st) st (l1 ++ l2).
Proof.
  intros (d1 & Hp1 & Hj1 & Ht1 & Hf1) Hk. unfold mbind, call_bind.
  destruct (c st) as [[a|e] st1] eqn:E; simpl in *.
  - destruct (Hk a st1 eq_refl) as (d2 & Hp2 & Hj2 & Ht2 & Hf2).
    rewrite (Hf1 a eq_refl) in Hj1. exists (l1 ++ d2). split_and!.
    + by apply prefix_app.
    + by eapply journal_trans.
    + done.
    + intros b Hb. by rewrite (Hf2 b Hb).
  - exists d1. split_and!.
    + by apply prefix_app_r.
    + done.
    + simpl. intros [= ->]. by apply Ht1.
    + done.
Qed.

Lemma progress_silent {A} (r : outcome A * CouchFS) st :
  history (_couchdb r.2) = history (_couchdb st) →
  r.1 ≠ Raise socket_timeout → progress r st [].
Proof.
  intros E Hr. exists []. split_and!; [done|by apply journal_refl|done..].
Qed.

Lemma progress_raise {A} e st st' full :
  history (_couchdb st') = history (_couchdb st) → e ≠ socket_timeout →
  progress (@Raise A e, st') st full.
Proof.
  intros E He. exists []. split_and!;
    [apply prefix_nil|by apply journal_refl|simpl; congruence|done].
Qed.

Lemma _update_inode_timestamp_progress d st :
  progress (_update_inode_timestamp (Some d) st) st [Saved (d_id d)].
Proof.
  unfold _update_inode_timestamp, couchdb_getitem, db_getitem, _now,
    couchdb_save, db_save. unfold_call. simpl.
  destruct (docs (_couchdb st) !! d_id d) as [sd|] eqn:E; simpl.
  - destruct (sd_inode sd) as [i|]; simpl.
    + rewrite E. rewrite decide_True by done. simpl.
      exists [Saved (d_id d)]. split_and!; done.
    + by apply progress_raise.
  - by apply progress_raise.
Qed.

Lemma couchdb_put_attachment_progress d a st :
  progress (couchdb_put_attachment (Some d) a st) st
    [Attached (d_id d) (filename a)].
Proof.
  unfold couchdb_put_attachment, db_put_attachment. unfold_call. simpl.
  destruct (docs (_couchdb st) !! d_id d) as [sd|] eqn:E; simpl.
  - case_decide; simpl.
    + exists [Attached (d_id d) (filename a)]. split_and!; done.
    + by apply progress_raise.
  - by apply progress_raise.
Qed.

Lemma _put_dentry_progress d dentry st :
  progress (_put_dentry (Some d) dentry st) st
    [Attached (d_id d) "dentry.json"; Saved (d_id d)].
Proof.
  unfold _put_dentry.
  apply (progress_bind _ _ st [Attached (d_id d) "dentry.json"]
           [Saved (d_id d)]).
  - apply (couchdb_put_attachment_progress d (Att_dentry dentry)).
  - intros _ st1 _. apply _update_inode_timestamp_progress.
Qed.

(** Resolution looks at the documents and at the table of open paths
    only. *)
Lemma resolve_ext st st' path :
  docs (_couchdb st') = docs (_couchdb st) → _inodes st' = _inodes st →
  resolve st' path = resolve st path.
Proof.
  intros Hd Ht. unfold resolve, db_view_by_path. by rewrite Hd, Ht.
Qed.

Lemma parent_id_ext st st' path :
  docs (_couchdb st') = docs (_couchdb st) → _inodes st' = _inodes st →
  parent_id st' path = parent_id st path.
Proof. intros Hd Ht. unfold parent_id. by rewrite (resolve_ext st st'). Qed.

Lemma _get_dentry_history inode st :
  (_get_dentry inode st).2 = st
  ∧ (_get_dentry inode st).1 ≠ Raise socket_timeout.
Proof.
  unfold _get_dentry, couchdb_get_dentry_json. unfold_call.
  destruct inode as [d|]; simpl; [|done].
  by destruct (db_get_dentry_json _ _).
Qed.

Lemma _del_dentry_progress path st :
  let p := parent_id st path in
  progress (_del_dentry path st) st [Attached p "dentry.json"; Saved p].
Proof.
  unfold parent_id, _del_dentry.
  destruct (os_path_split path) as [dirname basename]. simpl.
  unfold mbind at 1, call_bind at 1. rewrite _get_inode_resolve.
  destruct (resolve st dirname) as [par|]; simpl.
  - unfold mbind at 1, call_bind at 1.
    destruct (_get_dentry_history (Some par) st) as [Hs Hr].
    destruct (_get_dentry (Some par) st) as [[dentry|e] st1]; simpl in *;
      subst st1.
    + destruct (dentry !! basename).
      * rewrite <-(app_nil_r [_; _]). apply progress_bind.
        -- apply _put_dentry_progress.
        -- intros _ st1 _. by apply progress_silent.
      * by apply progress_raise.
    + apply progress_raise; [done|congruence].
  - by apply progress_raise.
Qed.

Lemma _add_dentry_progress path inode st :
  let p := parent_id st path in
  progress (_add_dentry path inode st) st [Attached p "dentry.json"; Saved p].
Proof.
  unfold parent_id, _add_dentry.
  destruct (os_path_split path) as [dirname basename]. simpl.
  unfold mbind at 1, call_bind at 1. rewrite _get_inode_resolve.
  destruct (resolve st dirname) as [par|]; simpl.
  - unfold mbind at 1, call_bind at 1.
    destruct (_get_dentry_history (Some par) st) as [Hs Hr].
    destruct (_get_dentry (Some par) st) as [[dentry|e] st1]; simpl in *;
      subst st1.
    + rewrite <-(app_nil_r [_; _]). apply progress_bind.
      * apply _put_dentry_progress.
      * intros _ st1 _. by apply progress_silent.
    + apply progress_raise; [done|congruence].
  - by apply progress_raise.
Qed.

Lemma couchdb_delete_progress d st :
  progress (couchdb_delete (Some d) st) st [Deleted (d_id d)].
Proof.
  unfold couchdb_delete, db_delete. unfold_call. simpl.
  destruct (docs (_couchdb st) !! d_id d) as [sd|]; simpl.
  - case_decide; simpl.
    + exists [Deleted (d_id d)]. split_and!; done.
    + by apply progress_raise.
  - by apply progress_raise.
Qed.

Lemma _create_inode_progress path mode st :
  progress (_create_inode path mode None st) st
    [Saved (fresh (dom (docs (_couchdb st))))].
Proof.
  rewrite _create_inode_fresh. eexists. split_and!; done.
Qed.

Lemma exc_handle_runs_through name (body : call value) st full :
  progress (body st) st full → runs_through (exc_handle name body) st full.
Proof.
  intros (applied & Hp & Hj & Ht & Hf). unfold runs_through, exc_handle.
  destruct (body st) as [[v|e] st1]; simpl in *.
  - exists applied. split_and!; [done..|]. intros _. by apply (Hf v).
  - destruct e; try done; exists applied; split_and!; done.
Qed.

Lemma exc_handle_runs_through_refused name (body : call value) st st1 v full :
  body st = (Ret v, st1) → v ≠ VNone →
  history (_couchdb st1) = history (_couchdb st) →
  runs_through (exc_handle name body) st full.
Proof.
  intros E Hv Hh. unfold runs_through. rewrite (exc_handle_Ret _ _ _ _ _ E).
  exists []. split_and!; [apply prefix_nil|by apply journal_refl|].
  simpl. congruence.
Qed.

(** [unlink] and [rmdir] delete the document first and rewrite the
    directory of the parent afterwards. *)
Lemma unlink_order st path d :
  resolve st path = Some d →
  let p := parent_id (exec (couchdb_delete (Some d)) st) path in
  runs_through (unlink path) st
    [Deleted (d_id d); Attached p "dentry.json"; Saved p].
Proof.
  intros Hr p. unfold unlink. apply exc_handle_runs_through.
  unfold mbind at 1, call_bind at 1, logger_debug. after_logging.
  unfold mbind at 1, call_bind at 1.
  rewrite _get_inode_resolve, resolve_emit, Hr.
  change [Deleted (d_id d); Attached p "dentry.json"; Saved p]
    with ([Deleted (d_id d)] ++ [Attached p "dentry.json"; Saved p]).
  apply progress_bind; [apply couchdb_delete_progress|].
  intros [] st1 E. rewrite <-(app_nil_r [_; _]). apply progress_bind.
  - replace p with (parent_id st1 path); [apply _del_dentry_progress|].
    subst p. apply parent_id_ext.
    + apply (f_equal snd) in E. simpl in E. subst st1. unfold exec.
      unfold couchdb_delete, db_delete. unfold_call. simpl.
      destruct (docs (_couchdb st) !! d_id d); [case_decide|]; done.
    + apply (f_equal snd) in E. simpl in E. subst st1. unfold exec.
      unfold couchdb_delete, db_delete. unfold_call. simpl.
      destruct (docs (_couchdb st) !! d_id d); [case_decide|]; done.
  - intros _ st2 _. by apply progress_silent.
Qed.

Lemma rmdir_order st path d :
  resolve st path = Some d →
  let p := parent_id (exec (couchdb_delete (Some d)) st) path in
  runs_through (rmdir path) st
    [Deleted (d_id d); Attached p "dentry.json"; Saved p].
Proof.
  intros Hr p. unfold rmdir.
  set (rec := LogRecord DEBUG "called rmdir(%s)" [Str path]).
  destruct (_get_dentry_history (Some d) (emit rec st)) as [Hs Ht].
  destruct (_get_dentry (Some d) (emit rec st)) as [[dentry|e] st1] eqn:Eg;
    simpl in Hs, Ht; subst st1.
  - destruct (bool_decide (2 < size dentry)%nat) eqn:Hsz.
    + eapply (exc_handle_runs_through_refused _ _ _ _ (VInt (- ENOTEMPTY)));
        [|done|].
      * unfold mbind at 1, call_bind at 1, logger_debug. fold rec.
        unfold mbind at 1, call_bind at 1.
        rewrite _get_inode_resolve, resolve_emit, Hr.
        unfold mbind at 1, call_bind at 1. rewrite Eg, Hsz. reflexivity.
      * done.
    + apply exc_handle_runs_through.
      unfold mbind at 1, call_bind at 1, logger_debug. fold rec.
      after_logging. unfold mbind at 1, call_bind at 1.
      rewrite _get_inode_resolve, resolve_emit, Hr.
      unfold mbind at 1, call_bind at 1. rewrite Eg, Hsz.
      change [Deleted (d_id d); Attached p "dentry.json"; Saved p]
        with ([Deleted (d_id d)] ++ [Attached p "dentry.json"; Saved p]).
      apply progress_bind; [apply couchdb_delete_progress|].
      intros [] st1 E. rewrite <-(app_nil_r [_; _]). apply progress_bind.
      * replace p with (parent_id st1 path); [apply _del_dentry_progress|].
        subst p. apply (f_equal snd) in E. simpl in E. subst st1.
        apply parent_id_ext; unfold exec, couchdb_delete, db_delete;
          unfold_call; simpl;
          (destruct (docs (_couchdb st) !! d_id d) as [sd|];
           [destruct (decide (sd_rev sd = d_rev d))|]; reflexivity).
      * intros _ st2 _. by apply progress_silent.
  - apply exc_handle_runs_through.
    unfold mbind at 1, call_bind at 1, logger_debug. fold rec.
    after_logging. unfold mbind at 1, call_bind at 1.
    rewrite _get_inode_resolve, resolve_emit, Hr.
    unfold mbind at 1, call_bind at 1. rewrite Eg.
    apply progress_raise; [done|congruence].
Qed.

(** [mknod], [mkdir] and [symlink] save the new document first and
    rewrite the directory of the parent afterwards. *)
Lemma mknod_order st path mode dev :
  resolve st path = None →
  let c := fresh (dom (docs (_couchdb st))) in
  let p := parent_id (exec (_create_inode path mode None) st) path in
  runs_through (mknod path mode dev) st
    [Saved c; Attached p "dentry.json"; Saved p].
Proof.
  intros Hr c p. unfold mknod. apply exc_handle_runs_through.
  unfold mbind at 1, call_bind at 1, logger_debug. after_logging.
  unfold mbind at 1, call_bind at 1.
  rewrite _get_inode_resolve, resolve_emit, Hr.
  change [Saved c; Attached p "dentry.json"; Saved p]
    with ([Saved c] ++ [Attached p "dentry.json"; Saved p]).
  apply progress_bind; [apply _create_inode_progress|].
  intros inode st1 E. rewrite <-(app_nil_r [_; _]). apply progress_bind.
  - replace p with (parent_id st1 path); [apply _add_dentry_progress|].
    subst p. apply (f_equal snd) in E. simpl in E. subst st1.
    apply parent_id_ext; unfold exec; by rewrite !_create_inode_fresh.
  - intros _ st2 _. by apply progress_silent.
Qed.

Lemma mkdir_order st path mode :
  resolve st path = None →
  let c := fresh (dom (docs (_couchdb st))) in
  let p := parent_id (exec (_create_inode path (Z.lor S_IFDIR mode) None) st)
             path in
  runs_through (mkdir path mode) st
    [Saved c; Attached p "dentry.json"; Saved p;
     Attached c "dentry.json"; Saved c].
Proof.
  intros Hr c p. unfold mkdir. apply exc_handle_runs_through.
  unfold mbind at 1, call_bind at 1, logger_debug. after_logging.
  unfold mbind at 1, call_bind at 1.
  rewrite _get_inode_resolve, resolve_emit, Hr.
  change [Saved c; Attached p "dentry.json"; Saved p;
          Attached c "dentry.json"; Saved c]
    with ([Saved c] ++ [Attached p "dentry.json"; Saved p]
          ++ [] ++ [Attached c "dentry.json"; Saved c] ++ []).
  apply progress_bind; [apply _create_inode_progress|].
  intros inode st1 E. rewrite _create_inode_fresh in E.
  injection E as <- <-. apply progress_bind.
  - match goal with
    | |- progress (_ ?s) _ _ =>
        replace p with (parent_id s path); [apply _add_dentry_progress|]
    end.
    subst p. apply parent_id_ext; unfold exec;
      by rewrite !_create_inode_fresh.
  - intros par_inode st2 _. apply progress_bind.
    + destruct par_inode; by apply progress_silent.
    + intros par st3 _. apply progress_bind.
      * apply (_put_dentry_progress (mk_Document c _ _ _)).
      * intros _ st4 _. by apply progress_silent.
Qed.

Lemma symlink_created_emit source path rec st :
  docs (_couchdb (exec (symlink_created source path) (emit rec st)))
    = docs (_couchdb (exec (symlink_created source path) st))
  ∧ _inodes (exec (symlink_created source path) (emit rec st))
    = _inodes (exec (symlink_created source path) st).
Proof.
  unfold exec, symlink_created, _put_symlink, couchdb_put_attachment.
  unfold_call. rewrite !_create_inode_fresh. simpl.
  by destruct (db_put_attachment _ _ _ _) as [[rev|e] db].
Qed.

Lemma symlink_order st source path :
  resolve st path = None →
  let c := fresh (dom (docs (_couchdb st))) in
  let p := parent_id (exec (symlink_created source path) st) path in
  runs_through (symlink source path) st
    [Saved c; Attached c "symlink"; Attached p "dentry.json"; Saved p].
Proof.
  intros Hr c p. unfold symlink. apply exc_handle_runs_through.
  unfold mbind at 1, call_bind at 1, logger_debug. after_logging.
  unfold mbind at 1, call_bind at 1.
  rewrite _get_inode_resolve, resolve_emit, Hr.
  change [Saved c; Attached c "symlink"; Attached p "dentry.json"; Saved p]
    with ([Saved c] ++ [Attached c "symlink"]
          ++ [Attached p "dentry.json"; Saved p] ++ []).
  apply progress_bind; [apply _create_inode_progress|].
  intros inode st1 E. rewrite _create_inode_fresh in E.
  injection E as <- <-. apply progress_bind.
  - apply (couchdb_put_attachment_progress (mk_Document c _ _ _)
             (Att_symlink source)).
  - intros [] st2 E2. apply progress_bind.
    + replace p with (parent_id st2 path); [apply _add_dentry_progress|].
      subst p. apply (f_equal snd) in E2. simpl in E2. subst st2.
      destruct (symlink_created_emit source path
                  (LogRecord DEBUG "called symlink(%s, %s)"
                     [Str source; Str path]) st) as [Hd Ht].
      rewrite <-(parent_id_ext _ _ path Hd Ht).
      unfold exec, symlink_created. unfold_call.
      by rewrite !_create_inode_fresh.
    + intros _ st3 _. by apply progress_silent.
Qed.

(** C5, as the code has it.  On a path that resolves to a document [d],
    [unlink] and [rmdir] send the store [Deleted d] first and only then
    the two writes that take the name out of the directory of the parent
    [p] (the attachment [dentry.json], then the timestamp); [p] is the
    document the directory part of the path resolves to once [d] is
    deleted.  On a path that does not resolve, [mknod], [mkdir] and
    [symlink] save the new document [c] first and write the directory of
    the parent afterwards.  A call that fails on the way has applied a
    prefix of its sequence; a call that returns [None] has applied all of
    it. *)
Theorem writes_in_order st path :
  (∀ d, resolve st path = Some d →
     let p := parent_id (exec (couchdb_delete (Some d)) st) path in
     runs_through (unlink path) st
       [Deleted (d_id d); Attached p "dentry.json"; Saved p]
     ∧ runs_through (rmdir path) st
         [Deleted (d_id d); Attached p "dentry.json"; Saved p])
  ∧ (resolve st path = None → ∀ mode dev source,
     let c := fresh (dom (docs (_couchdb st))) in
     let p1 := parent_id (exec (_create_inode path mode None) st) path in
     let p2 := parent_id
                 (exec (_create_inode path (Z.lor S_IFDIR mode) None) st)
                 path in
     let p3 := parent_id (exec (symlink_created source path) st) path in
     runs_through (mknod path mode dev) st
       [Saved c; Attached p1 "dentry.json"; Saved p1]
     ∧ runs_through (mkdir path mode) st
         [Saved c; Attached p2 "dentry.json"; Saved p2;
          Attached c "dentry.json"; Saved c]
     ∧ runs_through (symlink source path) st
         [Saved c; Attached c "symlink"; Attached p3 "dentry.json";
          Saved p3]).
Proof.
  split.
  - intros d Hr. split; [by apply unlink_order|by apply rmdir_order].
  - intros Hr mode dev source. split_and!;
      [by apply mknod_order|by apply mkdir_order|by apply symlink_order].
Qed.

Lemma writes_in_order_witness :
  let d := mk_Document "0" 5 (mk_inode_fields "/f" 33188 1 2 2) None in
  let p := parent_id (exec (couchdb_delete (Some d)) fs_f) "/f" in
  runs_through (unlink "/f") fs_f
    [Deleted (d_id d); Attached p "dentry.json"; Saved p]
  ∧ runs_through (rmdir "/f") fs_f
      [Deleted (d_id d); Attached p "dentry.json"; Saved p].
Proof.
  intros d. apply (proj1 (writes_in_order fs_f "/f") d).
  vm_compute. reflexivity.
Defined.

(** C5, as stated, fails for the delete operations.  [unlink] on [/f]
    returns [None], and the store has seen the document of [/f] deleted
    before the directory of the root was rewritten without the name.
    [rmdir] on an empty directory does the same. *)
Lemma unlink_deletes_document_first :
  (unlink "/f" fs_f).1 = Ret VNone
  ∧ history (_couchdb (exec (unlink "/f") fs_f))
    = history (_couchdb fs_f)
      ++ [Deleted "0"; Attached "root_inode" "dentry.json";
          Saved "root_inode"]
  ∧ (let st := exec (mkdir "/d" 493) fs0 in
     (rmdir "/d" st).1 = Ret VNone
     ∧ history (_couchdb (exec (rmdir "/d") st))
       = history (_couchdb st)
         ++ [Deleted "0"; Attached "root_inode" "dentry.json";
             Saved "root_inode"]).
Proof. vm_compute. auto. Qed.

(** The create operations, run. *)
Example create_writes_child_first :
  history (_couchdb (exec (mknod "/f" 33188 0) fs0))
    = history (_couchdb fs0)
      ++ [Saved "0"; Attached "root_inode" "dentry.json"; Saved "root_inode"]
  ∧ history (_couchdb (exec (mkdir "/d" 493) fs0))
    = history (_couchdb fs0)
      ++ [Saved "0"; Attached "root_inode" "dentry.json"; Saved "root_inode";
          Attached "0" "dentry.json"; Saved "0"]
  ∧ history (_couchdb (exec (symlink "/f" "/l") fs0))
    = history (_couchdb fs0)
      ++ [Saved "0"; Attached "0" "symlink";
          Attached "root_inode" "dentry.json"; Saved "root_inode"].
Proof. vm_compute. auto. Qed.

(** A delete that fails half way: the parent of [/d/f] is gone from the
    view, so the document of the file is deleted and nothing else is
    written. *)
Example unlink_half_way :
  let st := exec (unlink "/d") (exec (mknod "/d/f" 33188 0)
                                  (exec (mkdir "/d" 493) fs0)) in
  (unlink "/d/f" st).1 = Ret (VInt (- EINVAL))
  ∧ history (_couchdb (exec (unlink "/d/f") st))
    = history (_couchdb st) ++ [Deleted "1"].
Proof. vm_compute. auto. Qed.

(** ** Removing a directory *)

(** Deleting a document that the view does not list under a key leaves
    the resolution of that key as it was. *)
Lemma resolve_after_delete st st' id sd key :
  docs (_couchdb st) !! id = Some sd → ¬ emits key (id, sd) →
  docs (_couchdb st') = delete id (docs (_couchdb st)) →
  _inodes st' = _inodes st →
  resolve st' key = resolve st key.
Proof.
  intros Hid Hem Hd Ht. unfold resolve, db_view_by_path. rewrite Ht, Hd.
  rewrite map_filter_delete_not; [done|].
  intros sd' Hid'. rewrite Hid in Hid'. by injection Hid' as <-.
Qed.

Lemma next_rev_apply r m db : next_rev (apply r m db) = S (next_rev db).
Proof. unfold next_rev, apply. simpl. rewrite length_app. simpl. lia. Qed.

(** [_put_dentry] on a document held at its current revision. *)
Lemma _put_dentry_current d dentry st sd i :
  docs (_couchdb st) !! d_id d = Some sd → sd_rev sd = d_rev d →
  sd_inode sd = Some i →
  ∃ st', _put_dentry (Some d) dentry st = (Ret tt, st')
    ∧ docs (_couchdb st')
      = <[d_id d :=
            mk_stored (S (next_rev (_couchdb st)))
              (Some (mk_inode_fields (i_path i) (i_mode i) (i_nlink i)
                       (i_ctime i) (clock st)))
              (Some dentry) (sd_dblock sd) (sd_symlink sd)]>
          (docs (_couchdb st)).
Proof.
  intros Hid Hrev Hi. eexists. split.
  - unfold _put_dentry, couchdb_put_attachment, db_put_attachment,
      _update_inode_timestamp, couchdb_getitem, db_getitem, _now,
      couchdb_save, db_save.
    unfold_call. simpl. rewrite Hid. rewrite decide_True by done. simpl.
    rewrite lookup_insert_eq. simpl. rewrite Hi. simpl.
    rewrite lookup_insert_eq. simpl. rewrite decide_True by done.
    reflexivity.
  - simpl. by rewrite insert_insert_eq, next_rev_apply.
Qed.

(** [_del_dentry] when the parent resolves, is held at its current
    revision and lists the name. *)
Lemma _del_dentry_current path st par psd pd i :
  resolve st (os_path_split path).1 = Some par →
  docs (_couchdb st) !! d_id par = Some psd → sd_rev psd = d_rev par →
  sd_inode psd = Some i → sd_dentry psd = Some pd →
  is_Some (pd !! (os_path_split path).2) →
  ∃ st', _del_dentry path st = (Ret (Some par), st')
    ∧ db_get_dentry_json (d_id par) (_couchdb st')
      = Some (delete (os_path_split path).2 pd)
    ∧ ∀ id, id ≠ d_id par →
        docs (_couchdb st') !! id = docs (_couchdb st) !! id.
Proof.
  intros Hr Hid Hrev Hi Hpd [x Hx].
  destruct (_put_dentry_current par (delete (os_path_split path).2 pd) st
              psd i Hid Hrev Hi) as (st' & E & Hdocs).
  exists st'. split_and!.
  - unfold _del_dentry. destruct (os_path_split path) as [dirname basename].
    simpl in *.
    unfold _get_dentry, couchdb_get_dentry_json, db_get_dentry_json.
    unfold_call. rewrite _get_inode_resolve, Hr.
    simpl. rewrite Hid. simpl. rewrite Hpd, Hx. by rewrite E.
  - unfold db_get_dentry_json. by rewrite Hdocs, lookup_insert_eq.
  - intros id Hne. by rewrite Hdocs, lookup_insert_ne.
Qed.

(** For a map that lists [.] and [..], the test [len(dentry) > 2] of
    [rmdir] tells the two shapes apart. *)
Lemma size_dots : size dots = 2%nat.
Proof.
  unfold dots. rewrite size_union.
  - by rewrite !size_singleton.
  - intros x Hx Hx'. apply elem_of_singleton in Hx, Hx'. by subst.
Qed.

Lemma has_other_size dentry :
  dots ⊆ dom dentry → (has_other dentry ↔ (2 < size dentry)%nat).
Proof.
  intros Hsub. rewrite <-(size_dom (D := gset string)). split.
  - intros (name & Hin & Hout).
    assert (dots ∪ {[name]} ⊆ dom dentry) as Hs.
    { intros x [Hx|Hx]%elem_of_union; [by apply Hsub|].
      by apply elem_of_singleton in Hx as ->. }
    apply subseteq_size in Hs. rewrite size_union in Hs.
    + rewrite size_dots, size_singleton in Hs. lia.
    + intros x Hx Hx'. by apply elem_of_singleton in Hx' as ->.
  - intros Hsz. destruct (decide (dom dentry ∖ dots = ∅)) as [He|Hne].
    + assert (dom dentry ⊆ dots) as Hs.
      { intros x Hx. destruct (decide (x ∈ dots)) as [|Hn]; [done|].
        assert (x ∈ dom dentry ∖ dots) as Hd by by apply elem_of_difference.
        rewrite He in Hd. by apply not_elem_of_empty in Hd. }
      apply subseteq_size in Hs. rewrite size_dots in Hs. lia.
    + apply set_choose_L in Hne as [name Hname].
      apply elem_of_difference in Hname. by exists name.
Qed.

Lemma only_dots_size dentry :
  dots ⊆ dom dentry → (only_dots dentry ↔ ¬ (2 < size dentry)%nat).
Proof.
  intros Hsub. rewrite <-(size_dom (D := gset string)). unfold only_dots.
  split.
  - intros ->. rewrite size_dots. lia.
  - intros Hsz. symmetry. apply set_subseteq_size_eq; [done|].
    rewrite size_dots. lia.
Qed.

Lemma rmdir_not_empty st path d dentry :
  resolve st path = Some d →
  db_get_dentry_json (d_id d) (_couchdb st) = Some dentry →
  (2 < size dentry)%nat →
  ∃ st', rmdir path st = (Ret (VInt (- ENOTEMPTY)), st')
    ∧ only_logged st st'.
Proof.
  intros Hr Hd Hsz. eexists. split; [|shelve].
  unfold rmdir. apply exc_handle_Ret.
  unfold _get_dentry, couchdb_get_dentry_json. unfold_call.
  rewrite _get_inode_resolve, resolve_emit, Hr. simpl. rewrite Hd.
  rewrite bool_decide_eq_true_2 by done. reflexivity.
  Unshelve. done.
Qed.

Lemma rmdir_returns_None_size st path d dentry :
  resolve st path = Some d →
  db_get_dentry_json (d_id d) (_couchdb st) = Some dentry →
  (rmdir path st).1 = Ret VNone → ¬ (2 < size dentry)%nat.
Proof.
  intros Hr Hd Hret Hsz.
  destruct (rmdir_not_empty st path d dentry Hr Hd Hsz) as (st' & E & _).
  by rewrite E in Hret.
Qed.

Lemma rmdir_empty_linked st path d dentry :
  resolve st path = Some d →
  db_get_dentry_json (d_id d) (_couchdb st) = Some dentry →
  ¬ (2 < size dentry)%nat → linked st path d →
  ∃ st' pd, rmdir path st = (Ret VNone, st')
    ∧ docs (_couchdb st') !! d_id d = None
    ∧ db_get_dentry_json (parent_id st path) (_couchdb st') = Some pd
    ∧ pd !! (os_path_split path).2 = None.
Proof.
  intros Hr Hd Hsz (sd & par & psd & pd & i & Hid & Hrev & Hem & Hpar & Hne
                    & Hpid & Hprev & Hpi & Hpd & Hname).
  set (rec := LogRecord DEBUG "called rmdir(%s)" [Str path]).
  set (st1 := set_couchdb
                (apply (Deleted (d_id d)) (delete (d_id d) (docs (_couchdb st)))
                   (_couchdb st)) (emit rec st)).
  destruct (_del_dentry_current path st1 par psd pd i)
    as (st' & E & Hget & Hother); try done.
  { rewrite <-Hpar. by apply (resolve_after_delete st st1 (d_id d) sd). }
  { simpl. by rewrite lookup_delete_ne. }
  exists st', (delete (os_path_split path).2 pd). split_and!.
  - unfold rmdir. apply exc_handle_Ret.
    unfold _get_dentry, couchdb_get_dentry_json, couchdb_delete, db_delete.
    unfold_call. rewrite _get_inode_resolve, resolve_emit, Hr. simpl.
    rewrite Hd. rewrite bool_decide_eq_false_2 by done. simpl.
    rewrite Hid. rewrite decide_True by done. fold rec. fold st1.
    by rewrite E.
  - rewrite Hother by done. simpl. apply lookup_delete_eq.
  - unfold parent_id. rewrite Hpar. simpl. exact Hget.
  - apply lookup_delete_eq.
Qed.

(** C4, as the code has it.  For a path that resolves to a document whose
    directory map lists [.] and [..]:
    - if the map has any other entry, [rmdir] returns [-ENOTEMPTY] and
      leaves the database and the table of open paths as they were, so
      the document is not deleted;
    - if [rmdir] returns [None], the map has exactly the two entries;
    - if the map has exactly the two entries and the directory is in its
      place in the tree ([linked]), [rmdir] returns [None], the document
      is gone, and the map of the parent no longer lists the name. *)
Theorem rmdir_emptiness st path d dentry :
  resolve st path = Some d →
  db_get_dentry_json (d_id d) (_couchdb st) = Some dentry →
  dots ⊆ dom dentry →
  (has_other dentry →
     ∃ st', rmdir path st = (Ret (VInt (- ENOTEMPTY)), st')
       ∧ only_logged st st')
  ∧ ((rmdir path st).1 = Ret VNone → only_dots dentry)
  ∧ (only_dots dentry → linked st path d →
     ∃ st' pd, rmdir path st = (Ret VNone, st')
       ∧ docs (_couchdb st') !! d_id d = None
       ∧ db_get_dentry_json (parent_id st path) (_couchdb st') = Some pd
       ∧ pd !! (os_path_split path).2 = None).
Proof.
  intros Hr Hd Hdots. split_and!.
  - intros Ho. apply (rmdir_not_empty st path d dentry Hr Hd).
    by apply has_other_size.
  - intros Hret. apply only_dots_size; [done|].
    by apply (rmdir_returns_None_size st path d dentry).
  - intros Ho Hl. apply (rmdir_empty_linked st path d dentry Hr Hd); [|done].
    by apply only_dots_size.
Qed.

Lemma rmdir_emptiness_witness :
  let d := mk_Document "0" 9 (mk_inode_fields "/d" 16877 2 2 4) None in
  ∃ st' pd, rmdir "/d" fs_d = (Ret VNone, st')
    ∧ docs (_couchdb st') !! d_id d = None
    ∧ db_get_dentry_json (parent_id fs_d "/d") (_couchdb st') = Some pd
    ∧ pd !! (os_path_split "/d").2 = None.
Proof.
  intros d.
  destruct (db_get_dentry_json "0" (_couchdb fs_d)) as [dentry|] eqn:Hd;
    [|by vm_compute in Hd].
  assert (dom dentry = dots) as Hdom.
  { vm_compute in Hd. injection Hd as <-. by vm_compute. }
  destruct (rmdir_emptiness fs_d "/d" d dentry) as (_ & _ & H).
  - vm_compute. reflexivity.
  - exact Hd.
  - by rewrite Hdom.
  - apply H; [exact Hdom|].
    destruct (docs (_couchdb fs_d) !! "0") as [sd|] eqn:Hsd;
      [|by vm_compute in Hsd].
    destruct (docs (_couchdb fs_d) !! "root_inode") as [psd|] eqn:Hpsd;
      [|by vm_compute in Hpsd].
    exists sd, (mk_Document "root_inode" 7 (mk_inode_fields "/" 16749 2 0 3)
                  None), psd,
      (<["." := "root_inode"]> (<[".." := "root_inode"]> (<["d" := "0"]> ∅))),
      (mk_inode_fields "/" 16749 2 0 3).
    vm_compute in Hsd, Hpsd. injection Hsd as <-. injection Hpsd as <-.
    split_and!; try (vm_compute; reflexivity); done.
Defined.

(** C4, as stated, fails on the root.  The map of the root has exactly
    the entries [.] and [..], yet [rmdir] does not succeed: it deletes the
    document of the root, then looks for the parent of [/], which is [/]
    itself and is gone, and returns [-EINVAL]. *)
Lemma rmdir_root_fails :
  ∃ d dentry,
    resolve fs0 "/" = Some d
    ∧ db_get_dentry_json (d_id d) (_couchdb fs0) = Some dentry
    ∧ only_dots dentry
    ∧ (rmdir "/" fs0).1 = Ret (VInt (- EINVAL))
    ∧ docs (_couchdb (exec (rmdir "/") fs0)) !! d_id d = None.
Proof.
  do 2 eexists. split_and!; [vm_compute; reflexivity..| |];
    vm_compute; reflexivity.
Qed.

(** A directory with a file in it, and the same directory once the file
    is unlinked. *)
Example rmdir_scenario_C :
  let st := exec (mknod "/d/f" 33188 0) fs_d in
  (rmdir "/d" st).1 = Ret (VInt (- ENOTEMPTY))
  ∧ (unlink "/d/f" st).1 = Ret VNone
  ∧ (rmdir "/d" (exec (unlink "/d/f") st)).1 = Ret VNone.
Proof. vm_compute. auto. Qed.

(** The test counts entries and does not look at their names: a map
    without [.] but with a file in it has two entries, and [rmdir] removes
    the directory. *)
Example rmdir_counts_entries :
  let st := exec (mknod "/d/f" 33188 0)
              (exec (unlink "/d/.") (exec (mknod "/d/." 33188 0) fs_d)) in
  (dom <$> db_get_dentry_json "0" (_couchdb st))
    = Some ({[".."; "f"]} : gset string)
  ∧ (rmdir "/d" st).1 = Ret VNone.
Proof. vm_compute. auto. Qed.

(** ** The parent named in the order of writes *)

(** In [writes_in_order] the parent is resolved after the first write.
    In a tree where the document of the path is not listed under the
    directory part of the path, that is the parent the path had before
    the call. *)
Lemma parent_id_after_delete st d sd path :
  docs (_couchdb st) !! d_id d = Some sd →
  ¬ emits (os_path_split path).1 (d_id d, sd) →
  parent_id (exec (couchdb_delete (Some d)) st) path = parent_id st path.
Proof.
  intros Hid Hem. unfold parent_id. f_equal. f_equal.
  unfold exec, couchdb_delete, db_delete. unfold_call. simpl. rewrite Hid.
  destruct (decide (sd_rev sd = d_rev d)); [|done].
  by apply (resolve_after_delete st _ (d_id d) sd).
Qed.

Lemma parent_id_after_create st path mode :
  (os_path_split path).1 ≠ path →
  parent_id (exec (_create_inode path mode None) st) path = parent_id st path.
Proof.
  intros Hne. unfold parent_id. f_equal. f_equal.
  unfold exec. rewrite _create_inode_fresh. unfold resolve, db_view_by_path.
  cbn [fst snd _couchdb _inodes docs].
  rewrite map_filter_insert_not'; [done| |].
  - unfold emits. cbn [snd sd_inode fmap option_fmap option_map i_path].
    intros [= H]. by apply Hne.
  - intros sd Hsd. apply elem_of_dom_2 in Hsd. by apply is_fresh in Hsd.
Qed.

Example parent_id_root : parent_id fs_f "/f" = "root_inode".
Proof. vm_compute. reflexivity. Qed.

(** A path with a name after its last slash is not its own directory
    part. *)
Lemma lstrip_slash_length s : (length (lstrip_slash s) ≤ length s)%nat.
Proof.
  induction s as [|c s IH]; simpl; [lia|]. destruct (Ascii.eqb c "/"); simpl; lia.
Qed.

Lemma rstrip_slash_length s : (length (rstrip_slash s) ≤ length s)%nat.
Proof.
  unfold rstrip_slash. rewrite length_reverse.
  etrans; [apply lstrip_slash_length|]. by rewrite length_reverse.
Qed.

Lemma os_path_split_head_ne p :
  (os_path_split p).2 ≠ EmptyString → (os_path_split p).1 ≠ p.
Proof.
  unfold os_path_split. set (l := list_ascii_of_string p).
  set (i := rfind_slash l 0 (-1) + 1). simpl. intros Htail Hhead.
  assert (Z.to_nat (slice_bound (Z.of_nat (length l)) i) < length l)%nat
    as Hlt.
  { destruct (decide (Z.to_nat (slice_bound (Z.of_nat (length l)) i)
                      < length l)%nat) as [|Hge]; [done|].
    exfalso. apply Htail. unfold slice.
    rewrite drop_ge by lia. by rewrite take_nil. }
  apply (f_equal list_ascii_of_string) in Hhead.
  rewrite list_ascii_of_string_of_list_ascii in Hhead. fold l in Hhead.
  apply (f_equal length) in Hhead.
  assert (length (slice l None (Some i)) < length l)%nat as Hs.
  { unfold slice. rewrite length_take, length_drop. lia. }
  destruct (bool_decide _ && negb _) in Hhead.
  - pose proof (rstrip_slash_length (slice l None (Some i))). lia.
  - lia.
Qed.
